(** * dhCodex: the Codex registry of [src_cpp/dhCodex.hpp]

    A shallow embedding of namespace [dh::codex]: the process-wide mapping
    from UUID strings to owned [Thing]s, the mutex that guards it, and the
    gated / [__unsafe] pairs of operations on it.

    Conventions of the embedding.
    - [std::string] is [string], [char] is [ascii].
    - [std::map<const std::string, std::unique_ptr<Thing>>] is a
      [gmap string Thing]; its iteration order (ascending keys) is recovered
      by sorting, see [ordered_entries].
    - A raw pointer [T*] and a [std::unique_ptr<T>] are an [option Thing]:
      [None] is [nullptr].
    - The two function-local statics ([_mapping], [mutex]) and [std::cout]
      are the fields of [World]; every operation passes the world along.
    - The classes deriving from [Thing] are user code: they are the
      parameter [Hierarchy]. *)

From stdpp Require Import base option gmap strings list sorting pretty.
From Stdlib Require Import ZArith Ascii.

Local Open Scope string_scope.

(** ** The class hierarchy rooted at [Thing] *)

(** [Kind] ranges over the classes that derive from [Thing] (the only ones
    [add] and [get] accept, by their [static_assert]s), [Thing] included. *)
Class Hierarchy (Kind : Type) := {
  (** class [Thing] itself *)
  Thing_k : Kind;
  (** [std::is_base_of<B, D>::value] *)
  is_base_of : Kind → Kind → bool;
  is_base_of_Thing : ∀ D, is_base_of Thing_k D = true;
  (** [typeid( *this).name()] for an object of that class *)
  typeid_name : Kind → string;
  (** the final overrider of the virtual [get_repr] in that class, when it
      is not [Thing::get_repr]; it reads the UUID and the data members *)
  get_repr_override : Kind → option (string → string → string);
  (** whether the destructor of that class, and of its bases, has an empty
      body like [~Thing]; the body of any other destructor is user code
      that the header does not contain *)
  dtor_inert : Kind → bool;
  dtor_inert_Thing : dtor_inert Thing_k = true;    (* virtual ~Thing() {} *)
}.

Section Codex.
Context {Kind : Type} `{Hierarchy Kind}.

(** An object of class [Thing] or of a class derived from it. *)
Record Thing := mkThing {
  oid : positive;      (* which object it is: one per allocation, never reused *)
  _uuid : string;      (* private: const std::string _uuid *)
  kind : Kind;         (* the dynamic type of the object *)
  members : string;    (* the data members a derived class adds *)
}.

(** One run of the virtual destructor: [delete] of the object [dtor_this]. *)
Record DtorRun := mkDtorRun {
  dtor_this : Thing;
}.

Record World := mkWorld {
  _mapping : gmap string Thing;   (* static std::map ... _mapping *)
  mutex : bool;                   (* static std::mutex mutex; true = locked *)
  cout : string;                  (* what has been sent to std::cout *)
  dtor_runs : list DtorRun;       (* the destructors run so far, oldest first *)
}.

Definition initial : World := mkWorld ∅ false "" [].

(** How a call ends. *)
Inductive Outcome (A : Type) : Type :=
  | Returns (a : A) (w : World)
  | Undefined                     (* undefined behaviour: a null or dangling
                                     pointer is dereferenced, an int counter
                                     overflows *)
  | Deadlock                      (* the mutex is locked while it is held:
                                     the call does not return *)
  | IllFormed (name : string).    (* the body names an undeclared function *)
Global Arguments Returns {A} a w.
Global Arguments Undefined {A}.
Global Arguments Deadlock {A}.
Global Arguments IllFormed {A} name.

Definition bind {A B} (o : Outcome A) (k : A → World → Outcome B) : Outcome B :=
  match o with
  | Returns a w => k a w
  | Undefined => Undefined
  | Deadlock => Deadlock
  | IllFormed n => IllFormed n
  end.

Definition lock (w : World) : World :=
  mkWorld (_mapping w) true (cout w) (dtor_runs w).

Definition unlock (w : World) : World :=
  mkWorld (_mapping w) false (cout w) (dtor_runs w).

(** [std::lock_guard<std::mutex> lock{ *_get_mutex() }] around [body]: the
    constructor locks, the destructor unlocks on the way out. [std::mutex] is
    not recursive. *)
Definition lock_guard {A} (body : World → Outcome A) (w : World) : Outcome A :=
  if mutex w then Deadlock
  else bind (body (lock w)) (λ a w', Returns a (unlock w')).

(** [std::cout << s] *)
Definition print (s : string) (w : World) : World :=
  mkWorld (_mapping w) (mutex w) (cout w +:+ s) (dtor_runs w).

Definition endl : string := String "010"%char "".

(** ** Identifier minting *)

(** What the platform facility answers to one call of [_new_uuid]. *)
Inductive Platform :=
  | Win32 (UuidCreate_status UuidToStringA_status : Z) (str : string)
  | Linux (uuid_str : string).

Definition _new_uuid (p : Platform) (w : World) : string * World :=
  match p with
  | Win32 status1 status2 str =>
      if negb (status1 =? 0)%Z then
        ("", print ("Unexpected error retrieveing UUID! Error code: "
                    +:+ pretty status1 +:+ endl) w)
      else if negb (status2 =? 0)%Z then
        ("", print ("Unexpected error converting UUID to string! Error code: "
                    +:+ pretty status2 +:+ endl) w)
      else (str, w)
  | Linux uuid_str => (uuid_str, w)
  end.

(** ** class Thing *)

(** [Thing() : _uuid(_new_uuid()) {}], for the newly allocated object [o] of
    dynamic type [k] whose own constructor sets the data members to [ms]. *)
Definition Thing_ctor (o : positive) (k : Kind) (ms : string) (p : Platform)
  (w : World) : Thing * World :=
  let '(uuid, w') := _new_uuid p w in (mkThing o uuid k ms, w').

Definition get_uuid (t : Thing) : string := _uuid t.

Definition Thing_get_repr (t : Thing) : string :=
  "<'" +:+ typeid_name (kind t) +:+ "' object at [" +:+ get_uuid t +:+ "]>".

(** The virtual call [ptr->get_repr()]. *)
Definition get_repr (t : Thing) : string :=
  match get_repr_override (kind t) with
  | Some f => f (get_uuid t) (members t)
  | None => Thing_get_repr t
  end.

(** [dynamic_cast<T*>(ptr)]: null stays null; otherwise the pointer when the
    dynamic type is [T] or derives from it, null when it does not. *)
Definition dynamic_cast (T : Kind) (ptr : option Thing) : option Thing :=
  match ptr with
  | Some t => if is_base_of T (kind t) then Some t else None
  | None => None
  end.

(** ** Lookup *)

Definition _find_one_by_uuid__unsafe (T : Kind) (uuid : string) (w : World)
  : option Thing :=
  match _mapping w !! uuid with
  | Some t => dynamic_cast T (Some t)
  | None => None
  end.

Definition _find_one_by_uuid (T : Kind) (uuid : string) : World → Outcome (option Thing) :=
  lock_guard (λ w, Returns (_find_one_by_uuid__unsafe T uuid w) w).

Definition get__unsafe (T : Kind) (uuid : string) (w : World) : option Thing :=
  let result := _find_one_by_uuid__unsafe Thing_k uuid w in
  match result with
  | Some _ => dynamic_cast T result
  | None => None
  end.

(** Unqualified lookup of a resolver template by name, among those the
    header declares with the signature [T* f<T>(const std::string&)] and no
    lock of their own. *)
Definition lookup_resolver (name : string)
  : option (Kind → string → World → option Thing) :=
  if decide (name = "_find_one_by_uuid__unsafe") then Some _find_one_by_uuid__unsafe
  else if decide (name = "get__unsafe") then Some get__unsafe
  else None.

(** [get<T>]: the body calls [get_unsafe<T>(uuid)]. An instantiation whose
    body names an undeclared function is ill-formed: nothing runs. *)
Definition get (T : Kind) (uuid : string) (w : World) : Outcome (option Thing) :=
  match lookup_resolver "get_unsafe" with
  | Some callee => lock_guard (λ w, Returns (callee T uuid w) w) w
  | None => IllFormed "get_unsafe"
  end.

(** ** Insertion *)

(** [( *_get_mapping())[uuid] = std::move(ptr)]. [operator[]] finds the slot
    of [uuid] or creates it; the move assignment stores the new pointer in
    the slot and then deletes the object the slot owned before, if any.
    What the body of a derived destructor does then is user code: the world
    returned is the one an inert destructor ([dtor_inert]) leaves. *)
Definition assign (uuid : string) (t : Thing) (w : World) : World :=
  let m' := <[uuid := t]> (_mapping w) in
  mkWorld m' (mutex w) (cout w)
    match _mapping w !! uuid with
    | Some old => dtor_runs w ++ [mkDtorRun old]
    | None => dtor_runs w
    end.

(** [add__unsafe<T>]; [T] is the static type of the [unique_ptr]. *)
Definition add__unsafe (T : Kind) (ptr : option Thing) (w : World)
  : Outcome (option Thing) :=
  match ptr with
  | None => Undefined                       (* ptr->get_uuid() *)
  | Some t =>
      let uuid := get_uuid t in
      let w' := assign uuid t w in
      Returns (dynamic_cast T (_mapping w' !! uuid)) w'
  end.

Definition add (T : Kind) (ptr : option Thing) : World → Outcome (option Thing) :=
  lock_guard (add__unsafe T ptr).

(** [Thing::create()]: [add(std::make_unique<Thing>())], [o] being the
    object that [make_unique] allocates. *)
Definition create (o : positive) (p : Platform) (w : World)
  : Outcome (option Thing) :=
  let '(t, w') := Thing_ctor o Thing_k "" p w in add Thing_k (Some t) w'.

(** ** Removal *)

Inductive Status := SUCCESS | FAILURE.

(** [_get_mapping()->erase(uuid)]: the entry goes, and destroying it makes
    its [unique_ptr] delete the Thing. What the body of a derived destructor
    does then is user code: the world returned is the one an inert
    destructor ([dtor_inert]) leaves. *)
Definition erase (uuid : string) (w : World) : World :=
  match _mapping w !! uuid with
  | Some t =>
      mkWorld (delete uuid (_mapping w)) (mutex w) (cout w)
        (dtor_runs w ++ [mkDtorRun t])
  | None => w
  end.

Definition remove__unsafe (uuid : string) (w : World) : Status * World :=
  match get__unsafe Thing_k uuid w with
  | None => (FAILURE, w)
  | Some _ => (SUCCESS, erase uuid w)
  end.

Definition remove (uuid : string) : World → Outcome Status :=
  lock_guard (λ w, let '(s, w') := remove__unsafe uuid w in Returns s w').

(** Whether the Codex has deleted the object a handle points to. *)
Definition destroyed (w : World) (t : Thing) : bool :=
  bool_decide (oid t ∈ (λ r, oid (dtor_this r)) <$> dtor_runs w).

(** [remove(Thing* ptr)]: [ptr->get_uuid()] reads through the pointer, with
    no check, a null pointer or a pointer to a deleted object included. *)
Definition remove_ptr (ptr : option Thing) : World → Outcome Status :=
  lock_guard (λ w,
    match ptr with
    | None => Undefined                     (* null: ptr->get_uuid() *)
    | Some t =>
        if destroyed w t then Undefined     (* dangling: ptr->get_uuid() *)
        else let '(s, w') := remove__unsafe (get_uuid t) w in Returns s w'
    end).

(** ** Size *)

Definition size__unsafe (w : World) : nat := size (_mapping w).

(** The gated [size()]. *)
Definition size_ : World → Outcome nat :=
  lock_guard (λ w, Returns (size__unsafe w) w).

(** ** Listing *)

(** Iteration from [begin()] to [end()]: ascending keys, by [operator<] of
    [std::string]. *)
Definition key_le (a b : string * Thing) : Prop := Is_true (String.leb a.1 b.1).

Global Instance key_le_dec a b : Decision (key_le a b) := _.

Definition ordered_entries (m : gmap string Thing) : list (string * Thing) :=
  merge_sort key_le (map_to_list m).

(** The loop counters are [int]s compared with a [size()]: a string longer
    than [INT_MAX] makes the increment overflow. *)
Definition fits_int (s : string) : bool :=
  (Z.of_nat (String.length s) <=? 2147483647)%Z.

(** [indent = "|       "; for (_ < it->first.size()) indent += " "] *)
Definition indent_for (uuid : string) : string :=
  Nat.iter (String.length uuid) (λ indent, indent +:+ " ") "|       ".

(** The loop over [idx]: each character is appended to [repr_offset], and
    [indent] after it when it is a newline. *)
Definition repr_offset_step (indent : string) (acc : string) (c : ascii) : string :=
  let acc := acc +:+ String c "" in
  if Ascii.eqb c "010" then acc +:+ indent else acc.

Definition repr_offset (indent repr : string) : string :=
  fold_left (repr_offset_step indent) (String.list_ascii_of_string repr) "".

(** What one iteration of the outer loop appends to [content]. *)
Definition entry_row (uuid : string) (t : Thing) : option string :=
  let repr := get_repr t in
  if fits_int uuid && fits_int repr then
    Some ("|    [" +:+ uuid +:+ "] " +:+ repr_offset (indent_for uuid) repr +:+ endl)
  else None.

Fixpoint content_loop (entries : list (string * Thing)) (content : string)
  : option string :=
  match entries with
  | [] => Some content
  | (uuid, t) :: rest =>
      match entry_row uuid t with
      | Some row => content_loop rest (content +:+ row)
      | None => None
      end
  end.

Definition line : string := "+---------------------------------------------".
Definition prefix : string := endl +:+ "| Codex:" +:+ endl.

Definition list_entries__unsafe (print_ : bool) (w : World) : Outcome string :=
  match content_loop (ordered_entries (_mapping w)) "" with
  | None => Undefined
  | Some content =>
      let w' := if print_
                then print (line +:+ prefix +:+ content +:+ line +:+ endl) w
                else w in
      Returns (line +:+ prefix +:+ content +:+ line +:+ endl) w'
  end.

Definition list_entries (print_ : bool) : World → Outcome string :=
  lock_guard (list_entries__unsafe print_).

(** The words of the listing format: a run of [n] spaces, and a line of
    text (no newline in it). *)
Definition spaces (n : nat) : string :=
  String.string_of_list_ascii (replicate n " "%char).

Definition no_newline (l : string) : Prop :=
  Forall (λ c, c ≠ "010"%char) (String.list_ascii_of_string l).

(** The number of newline characters of a text. *)
Definition newlines (s : string) : nat :=
  length (filter (λ c, c = "010"%char) (String.list_ascii_of_string s)).

(** ** Sequences of insertions and removals *)

Inductive Op :=
  | Insert (T : Kind) (t : Thing)     (* add__unsafe<T>(ptr), ptr owning t *)
  | Remove (uuid : string).           (* remove__unsafe(uuid) *)

(** What one operation did: for an insertion, whether the identifier was
    absent when it ran and the handle returned; for a removal, its status. *)
Inductive Seen :=
  | Inserted (fresh : bool) (handle : option Thing)
  | Removed (s : Status).

Definition step (op : Op) (w : World) : Seen * World :=
  match op with
  | Insert T t =>
      match add__unsafe T (Some t) w with
      | Returns h w' =>
          (Inserted (bool_decide (_mapping w !! get_uuid t = None)) h, w')
      | _ => (Inserted false None, w)   (* not taken: the pointer is not null *)
      end
  | Remove uuid => let '(s, w') := remove__unsafe uuid w in (Removed s, w')
  end.

Fixpoint run (ops : list Op) (w : World) : list Seen * World :=
  match ops with
  | [] => ([], w)
  | op :: ops =>
      let '(o, w1) := step op w in
      let '(os, w2) := run ops w1 in
      (o :: os, w2)
  end.

Definition insertions (os : list Seen) : nat :=
  sum_list (map (λ o, match o with Inserted _ _ => 1 | _ => 0 end) os).

Definition fresh_insertions (os : list Seen) : nat :=
  sum_list (map (λ o, match o with Inserted true _ => 1 | _ => 0 end) os).

Definition successful_removals (os : list Seen) : nat :=
  sum_list (map (λ o, match o with Removed SUCCESS => 1 | _ => 0 end) os).

(** Every Thing the sequence hands to the Codex has an inert destructor. *)
Definition inert_ops (ops : list Op) : Prop :=
  Forall (λ op, match op with
                | Insert _ t => dtor_inert (kind t) = true
                | Remove _ => True
                end) ops.

(** The objects a sequence hands to the Codex, and those a world has seen
    deleted. *)
Definition inserted_oids (ops : list Op) : list positive :=
  omap (λ op, match op with
              | Insert _ t => Some (oid t)
              | Remove _ => None
              end) ops.

Definition destroyed_oids (w : World) : list positive :=
  (λ r, oid (dtor_this r)) <$> dtor_runs w.

(** Among the objects [S]: a stored object has not been deleted, no object
    is stored twice, none has been deleted twice. *)
Definition owned (S : list positive) (w : World) : Prop :=
  (∀ u t, _mapping w !! u = Some t → oid t ∈ S ∧ oid t ∉ destroyed_oids w)
  ∧ (∀ o, o ∈ destroyed_oids w → o ∈ S)
  ∧ (∀ u1 u2 t1 t2, _mapping w !! u1 = Some t1 → _mapping w !! u2 = Some t2 →
       oid t1 = oid t2 → u1 = u2)
  ∧ NoDup (destroyed_oids w).

(** Every Thing is stored under its own identifier. *)
Definition keyed_by_uuid (w : World) : Prop :=
  ∀ u t, _mapping w !! u = Some t → get_uuid t = u.

End Codex.

Global Arguments Thing : clear implicits.
Global Arguments World : clear implicits.
Global Arguments DtorRun : clear implicits.
Global Arguments Outcome Kind A : clear implicits.
Global Arguments Op : clear implicits.
Global Arguments Seen : clear implicits.

(** ** A hierarchy to run the definitions on

    [Parent] and [Child] derive from [Thing]; [Child] overrides [get_repr]
    with a two-line rendering. *)
Module Family.

Inductive Kind := KThing | KParent | KChild.

Definition base_of (B D : Kind) : bool :=
  match B, D with
  | KThing, _ | KParent, KParent | KChild, KChild => true
  | _, _ => false
  end.

Lemma base_of_Thing D : base_of KThing D = true.
Proof. by destruct D. Qed.

Definition name (k : Kind) : string :=
  match k with
  | KThing => "N2dh5codex5ThingE"
  | KParent => "6Parent"
  | KChild => "5Child"
  end.

Definition repr_override (k : Kind) : option (string → string → string) :=
  match k with
  | KChild => Some (λ uuid ms, "child" +:+ endl +:+ "of " +:+ ms)
  | _ => None
  end.

(** [Parent] has a destructor of its own (it removes its children, as the
    header suggests); [Thing] and [Child] have none. *)
Definition inert (k : Kind) : bool :=
  match k with KParent => false | _ => true end.

Global Instance family : Hierarchy Kind :=
  {| Thing_k := KThing; is_base_of := base_of; is_base_of_Thing := base_of_Thing;
     typeid_name := name; get_repr_override := repr_override;
     dtor_inert := inert; dtor_inert_Thing := eq_refl |}.

Definition alice : Thing Kind := mkThing 1 "a1" KParent "".
Definition bob : Thing Kind := mkThing 2 "b2" KChild "a1".
Definition carol : Thing Kind := mkThing 3 "a1" KChild "x".
Definition dave : Thing Kind := mkThing 4 "b2" KThing "".

Definition two : World Kind := mkWorld {[ "a1" := alice; "b2" := bob ]} false "" [].

End Family.

(** * Properties *)

Section Facts.
Context {Kind : Type} `{Hierarchy Kind}.
Implicit Types (w : World Kind) (t : Thing Kind) (T : Kind) (uuid u : string).

(** ** Lookup and removal, step by step *)

Lemma dynamic_cast_Thing (ptr : option (Thing Kind)) :
  dynamic_cast Thing_k ptr = ptr.
Proof. destruct ptr as [t|]; simpl; [by rewrite is_base_of_Thing | done]. Qed.

Lemma find_unsafe_lookup T uuid w :
  _find_one_by_uuid__unsafe T uuid w = dynamic_cast T (_mapping w !! uuid).
Proof. unfold _find_one_by_uuid__unsafe. by destruct (_mapping w !! uuid). Qed.

Lemma get__unsafe_lookup T uuid w :
  get__unsafe T uuid w = dynamic_cast T (_mapping w !! uuid).
Proof.
  unfold get__unsafe. rewrite find_unsafe_lookup, dynamic_cast_Thing.
  by destruct (_mapping w !! uuid).
Qed.

Lemma remove__unsafe_absent uuid w :
  _mapping w !! uuid = None → remove__unsafe uuid w = (FAILURE, w).
Proof. intros Hu. unfold remove__unsafe. by rewrite get__unsafe_lookup, Hu. Qed.

Lemma remove__unsafe_present uuid t w :
  _mapping w !! uuid = Some t →
  remove__unsafe uuid w
  = (SUCCESS, mkWorld (delete uuid (_mapping w)) (mutex w) (cout w)
                (dtor_runs w ++ [mkDtorRun t])%list).
Proof.
  intros Hu. unfold remove__unsafe, erase.
  by rewrite get__unsafe_lookup, dynamic_cast_Thing, Hu.
Qed.

Lemma remove__unsafe_mapping uuid w :
  _mapping (remove__unsafe uuid w).2 = delete uuid (_mapping w).
Proof.
  destruct (_mapping w !! uuid) as [t|] eqn:Hu.
  - by rewrite (remove__unsafe_present _ _ _ Hu).
  - rewrite (remove__unsafe_absent _ _ Hu). simpl. by rewrite delete_id.
Qed.

Lemma lock_guard_free {A} (body : World Kind → Outcome Kind A) w :
  mutex w = false →
  lock_guard body w = bind (body (lock w)) (λ a w', Returns a (unlock w')).
Proof. intros Hm. unfold lock_guard. by rewrite Hm. Qed.

Lemma unlock_lock w : mutex w = false → unlock (lock w) = w.
Proof. destruct w as [m [] c d]; [done | by intros _]. Qed.

Lemma remove_free uuid w :
  mutex w = false →
  remove uuid w
  = Returns (remove__unsafe uuid (lock w)).1 (unlock (remove__unsafe uuid (lock w)).2).
Proof.
  intros Hm. unfold remove. rewrite (lock_guard_free _ _ Hm).
  by destruct (remove__unsafe uuid (lock w)).
Qed.

(** ** Kind-checked resolution *)

(** C2. For a Thing [t] stored in the Codex under its identifier and a
    requested kind [T], [get__unsafe<T>(t.get_uuid())] returns a handle
    exactly when [T] is a base of (or is) the dynamic type of [t], and the
    handle is then [t]; on a mismatch it returns null; requesting [Thing]
    always matches; and an identifier that is not in the Codex gives null
    for every [T]. *)
Theorem get__unsafe_kind_checked T w :
  (∀ t, _mapping w !! get_uuid t = Some t →
     (is_Some (get__unsafe T (get_uuid t) w) ↔ is_base_of T (kind t) = true)
     ∧ (is_base_of T (kind t) = true → get__unsafe T (get_uuid t) w = Some t)
     ∧ (is_base_of T (kind t) = false → get__unsafe T (get_uuid t) w = None)
     ∧ get__unsafe Thing_k (get_uuid t) w = Some t)
  ∧ (∀ uuid, _mapping w !! uuid = None → get__unsafe T uuid w = None).
Proof.
  split.
  - intros t Ht. rewrite !get__unsafe_lookup, Ht, dynamic_cast_Thing. simpl.
    destruct (is_base_of T (kind t)) eqn:Hk; repeat split;
      first [done | by eexists | by intros [? ?]].
  - intros uuid Hu. by rewrite get__unsafe_lookup, Hu.
Qed.

(** ** Identifiers that are not present *)

(** C6. For an identifier [u] that is not in the Codex, [get__unsafe]
    returns null for every requested kind and [remove__unsafe] returns
    [FAILURE] and changes nothing, and so does the gated [remove] when the
    mutex is free. After a [remove__unsafe(u)] that returned [SUCCESS], every
    further [remove__unsafe(u)], however many, returns [FAILURE]. *)
Theorem absent_identifier_not_found u w :
  (_mapping w !! u = None →
     (∀ T, get__unsafe T u w = None)
     ∧ remove__unsafe u w = (FAILURE, w)
     ∧ (mutex w = false → remove u w = Returns FAILURE w))
  ∧ (∀ w1, remove__unsafe u w = (SUCCESS, w1) →
       ∀ n, remove__unsafe u (Nat.iter n (λ w', (remove__unsafe u w').2) w1)
            = (FAILURE, w1)).
Proof.
  split.
  - intros Hu. split; [|split].
    + intros T. by rewrite get__unsafe_lookup, Hu.
    + by apply remove__unsafe_absent.
    + intros Hm. rewrite (remove_free _ _ Hm).
      rewrite (remove__unsafe_absent u (lock w)) by done. simpl.
      by rewrite unlock_lock.
  - intros w1 Hrm.
    assert (_mapping w1 !! u = None) as Hgone.
    { replace w1 with (remove__unsafe u w).2 by by rewrite Hrm.
      rewrite remove__unsafe_mapping. apply lookup_delete_eq. }
    assert (∀ n, Nat.iter n (λ w', (remove__unsafe u w').2) w1 = w1) as Hfix.
    { induction n as [|n IH]; [done|]. simpl. rewrite IH.
      by rewrite (remove__unsafe_absent _ _ Hgone). }
    intros n. rewrite Hfix. by apply remove__unsafe_absent.
Qed.

(** ** Removal through a handle *)

Lemma destroyed_lock w t : destroyed (lock w) t = destroyed w t.
Proof. reflexivity. Qed.

(** C9 (amended). [remove(Thing* ptr)] reads the identifier through [ptr]
    with no check, so what it needs is a pointer to a live Thing. For every
    handle whose Thing the Codex has not deleted it returns what
    [remove(ptr->get_uuid())] returns and leaves the same world; with the
    mutex free, a null handle and a handle whose Thing the Codex has deleted
    are undefined behaviour. *)
Theorem remove_ptr_as_remove t w :
  (destroyed w t = false → remove_ptr (Some t) w = remove (get_uuid t) w)
  ∧ (destroyed w t = true → mutex w = false →
     remove_ptr (Some t) w = Undefined)
  ∧ (mutex w = false → remove_ptr None w = Undefined).
Proof.
  unfold remove_ptr, remove, lock_guard. split; [|split].
  - intros Hlive. destruct (mutex w); [done|].
    by rewrite destroyed_lock, Hlive.
  - intros Hgone ->. by rewrite destroyed_lock, Hgone.
  - by intros ->.
Qed.

(** ** Gated and ungated forms *)

Lemma add_free T ptr w :
  mutex w = false →
  add T ptr w = bind (add__unsafe T ptr (lock w)) (λ a w', Returns a (unlock w')).
Proof. intros Hm. unfold add. by rewrite (lock_guard_free _ _ Hm). Qed.

(** C4. With the mutex free, [remove], [add], [size], [list_entries] and
    [_find_one_by_uuid] return what their [__unsafe] counterpart returns when
    run with the mutex held, and leave the world it leaves, the mutex
    released. The gated [get<T>] does not: its body names [get_unsafe], which
    the header does not declare, so no instantiation of it is well-formed,
    while [get__unsafe<T>] returns a handle or null. *)
Theorem gated_forms_but_get T uuid ptr print_ m c d :
  let w := mkWorld m false c d in
  remove uuid w
    = Returns (remove__unsafe uuid (lock w)).1 (unlock (remove__unsafe uuid (lock w)).2)
  ∧ add T ptr w
    = bind (add__unsafe T ptr (lock w)) (λ a w', Returns a (unlock w'))
  ∧ size_ w = Returns (size__unsafe (lock w)) w
  ∧ list_entries print_ w
    = bind (list_entries__unsafe print_ (lock w)) (λ a w', Returns a (unlock w'))
  ∧ _find_one_by_uuid T uuid w = Returns (_find_one_by_uuid__unsafe T uuid (lock w)) w
  ∧ get T uuid w = IllFormed "get_unsafe"
  ∧ get T uuid w ≠ Returns (get__unsafe T uuid (lock w)) w.
Proof.
  intros w. repeat split; try reflexivity.
  - by apply remove_free.
  - done.
Qed.

(** ** Insertion under an identifier that is taken *)

Lemma assign_mapping uuid t w :
  _mapping (assign uuid t w) = <[uuid := t]> (_mapping w).
Proof. done. Qed.

Lemma add__unsafe_returns T t w :
  is_base_of T (kind t) = true →
  add__unsafe T (Some t) w = Returns (Some t) (assign (get_uuid t) t w).
Proof.
  intros Hk. unfold add__unsafe. rewrite assign_mapping, lookup_insert_eq.
  simpl. by rewrite Hk.
Qed.

(** C1 (amended). An insert of a Thing whose identifier is already present
    does not fail. When the Thing stored under that identifier has an inert
    destructor, the insert returns a handle to the new Thing, which replaces
    the stored one under that identifier; the Thing stored before is
    deleted, and every other entry and the size are unchanged. The gated
    [add] does the same when the mutex is free. *)
Theorem add__unsafe_present_overwrites T t old w :
  _mapping w !! get_uuid t = Some old →
  dtor_inert (kind old) = true →
  is_base_of T (kind t) = true →
  ∃ w', add__unsafe T (Some t) w = Returns (Some t) w'
      ∧ (mutex w = false → add T (Some t) w = Returns (Some t) w')
      ∧ _mapping w' !! get_uuid t = Some t
      ∧ (∀ u, u ≠ get_uuid t → _mapping w' !! u = _mapping w !! u)
      ∧ size__unsafe w' = size__unsafe w
      ∧ dtor_runs w' = (dtor_runs w ++ [mkDtorRun old])%list
      ∧ (oid old ∉ (λ r, oid (dtor_this r)) <$> dtor_runs w →
         destroyed w old = false ∧ destroyed w' old = true).
Proof.
  intros Hold _ Hk. exists (assign (get_uuid t) t w).
  split; [by apply add__unsafe_returns|]. split; [|repeat split].
  - intros Hm. rewrite (add_free _ _ _ Hm), (add__unsafe_returns _ _ _ Hk).
    simpl. f_equal. destruct w as [m mu c d]. simpl in Hm. by subst mu.
  - apply lookup_insert_eq.
  - intros u Hu. simpl. by rewrite lookup_insert_ne.
  - unfold size__unsafe. simpl. apply map_size_insert_Some. by eexists.
  - unfold assign. simpl. by rewrite Hold.
  - unfold destroyed. by apply bool_decide_eq_false_2.
  - unfold destroyed, assign. cbn [dtor_runs]. rewrite Hold.
    apply bool_decide_eq_true_2. rewrite fmap_app. set_solver.
Qed.

(** ** Size along a sequence of operations *)

Lemma step_Insert T t w :
  step (Insert T t) w
  = (Inserted (bool_decide (_mapping w !! get_uuid t = None))
              (dynamic_cast T (Some t)),
     assign (get_uuid t) t w).
Proof.
  unfold step, add__unsafe. by rewrite assign_mapping, lookup_insert_eq.
Qed.

Lemma step_Remove uuid w :
  step (Remove uuid) w
  = (Removed (remove__unsafe uuid w).1, (remove__unsafe uuid w).2).
Proof. unfold step. by destruct (remove__unsafe uuid w). Qed.

Lemma size_delete_present uuid t (m : gmap string (Thing Kind)) :
  m !! uuid = Some t → size m = S (size (delete uuid m)).
Proof.
  intros Hu. rewrite <- (insert_delete_id m uuid t Hu) at 1.
  apply map_size_insert_None, lookup_delete_eq.
Qed.

Lemma step_size op w :
  size__unsafe (step op w).2 + successful_removals [(step op w).1]
  = size__unsafe w + fresh_insertions [(step op w).1].
Proof.
  destruct op as [T t | uuid].
  - rewrite step_Insert. unfold size__unsafe. simpl.
    rewrite map_size_insert. case_bool_decide as Hfresh.
    + rewrite Hfresh. cbn. lia.
    + destruct (_mapping w !! get_uuid t); [cbn; lia | congruence].
  - unfold step. destruct (_mapping w !! uuid) as [t|] eqn:Hu.
    + rewrite (remove__unsafe_present _ _ _ Hu). unfold size__unsafe.
      cbn. rewrite (size_delete_present _ _ _ Hu). lia.
    + rewrite (remove__unsafe_absent _ _ Hu). cbn. lia.
Qed.

Lemma run_cons op ops w :
  run (op :: ops) w
  = ((step op w).1 :: (run ops (step op w).2).1, (run ops (step op w).2).2).
Proof.
  cbn [run]. destruct (step op w) as [o w1]. cbn [fst snd].
  by destruct (run ops w1).
Qed.

Lemma run_size ops : ∀ w,
  size__unsafe (run ops w).2 + successful_removals (run ops w).1
  = size__unsafe w + fresh_insertions (run ops w).1.
Proof.
  induction ops as [|op ops IH]; intros w; [cbn; lia|].
  rewrite run_cons. simpl.
  specialize (IH (step op w).2). pose proof (step_size op w) as Hs.
  unfold successful_removals, fresh_insertions in *. cbn in *. lia.
Qed.

Lemma fresh_insertions_all (os : list (Seen Kind)) :
  Forall (λ o, ∀ h, o ≠ Inserted false h) os →
  fresh_insertions os = insertions os.
Proof.
  unfold fresh_insertions, insertions.
  induction 1 as [|o os Ho _ IH]; [done|]. cbn. rewrite IH.
  destruct o as [[] h|s]; [done | by destruct (Ho h) | done].
Qed.

(** C5 (amended). After any sequence of [add__unsafe] and [remove__unsafe]
    calls on an empty Codex in which every inserted Thing has an inert
    destructor, the size is the number of insertions made under an
    identifier that was not present at that moment, minus the number of
    removals that returned [SUCCESS]; when no insertion of the sequence met
    its identifier in the Codex, that is the number of insertions minus the
    number of removals that returned [SUCCESS]. *)
Theorem size_counts_fresh_insertions (ops : list (Op Kind)) :
  inert_ops ops →
  Z.of_nat (size__unsafe (run ops initial).2)
  = (Z.of_nat (fresh_insertions (run ops initial).1)
     - Z.of_nat (successful_removals (run ops initial).1))%Z
  ∧ (Forall (λ o, ∀ h, o ≠ Inserted false h) (run ops initial).1 →
     Z.of_nat (size__unsafe (run ops initial).2)
     = (Z.of_nat (insertions (run ops initial).1)
        - Z.of_nat (successful_removals (run ops initial).1))%Z).
Proof.
  intros _. pose proof (run_size ops initial) as Hrun.
  change (size__unsafe initial) with (size (∅ : gmap string (Thing Kind))) in Hrun.
  rewrite map_size_empty in Hrun.
  split; [lia|]. intros <-%fresh_insertions_all. lia.
Qed.

(** ** Identifiers of the stored Things *)

Lemma step_keyed op w : keyed_by_uuid w → keyed_by_uuid (step op w).2.
Proof.
  intros Hw u t. destruct op as [T t' | uuid].
  - rewrite step_Insert. simpl. rewrite lookup_insert.
    case_decide as Hu; [by intros [= <-] | apply Hw].
  - rewrite step_Remove. cbn [snd]. rewrite remove__unsafe_mapping.
    rewrite lookup_delete. case_decide; [done | apply Hw].
Qed.

Lemma run_keyed ops : ∀ w, keyed_by_uuid w → keyed_by_uuid (run ops w).2.
Proof.
  induction ops as [|op ops IH]; intros w Hw; [done|].
  rewrite run_cons. simpl. by apply IH, step_keyed.
Qed.

Lemma initial_keyed : keyed_by_uuid (initial : World Kind).
Proof. intros u t. unfold initial. simpl. by rewrite lookup_empty. Qed.

(** ** Strings *)

Lemma app_cons c (s1 s2 : string) : String c s1 +:+ s2 = String c (s1 +:+ s2).
Proof. reflexivity. Qed.

Lemma app_nil_l (s : string) : "" +:+ s = s.
Proof. reflexivity. Qed.

Lemma app_nil_r (s : string) : s +:+ "" = s.
Proof. induction s as [|c s IH]; [done|]. by rewrite app_cons, IH. Qed.

Lemma app_assoc (s1 s2 s3 : string) : (s1 +:+ s2) +:+ s3 = s1 +:+ (s2 +:+ s3).
Proof.
  induction s1 as [|c s1 IH]; [done|]. by rewrite !app_cons, IH.
Qed.

Lemma spaces_S n : spaces (S n) = String " " (spaces n).
Proof. reflexivity. Qed.

Lemma spaces_snoc n : spaces n +:+ " " = spaces (S n).
Proof.
  induction n as [|n IH]; [done|].
  by rewrite (spaces_S n), app_cons, IH.
Qed.

Lemma spaces_length n : String.length (spaces n) = n.
Proof. induction n as [|n IH]; [done|]. rewrite spaces_S. simpl. by rewrite IH. Qed.

Lemma iter_append_space n (base : string) :
  Nat.iter n (λ indent, indent +:+ " ") base = base +:+ spaces n.
Proof.
  induction n as [|n IH]; [by rewrite app_nil_r|].
  rewrite Nat.iter_succ, IH, app_assoc. by rewrite spaces_snoc.
Qed.

Lemma indent_for_spaces uuid :
  indent_for uuid = "|       " +:+ spaces (String.length uuid).
Proof. apply iter_append_space. Qed.

(** ** The inner loop of the listing *)

Lemma repr_offset_loop_acc indent cs : ∀ acc,
  fold_left (repr_offset_step indent) cs acc
  = acc +:+ fold_left (repr_offset_step indent) cs "".
Proof.
  induction cs as [|c cs IH]; intros acc; [by rewrite app_nil_r|].
  cbn [fold_left]. rewrite (IH (repr_offset_step indent acc c)).
  rewrite (IH (repr_offset_step indent "" c)).
  unfold repr_offset_step. destruct (Ascii.eqb c "010");
    by rewrite ?app_nil_l, ?app_assoc.
Qed.

Lemma repr_offset_nil indent : repr_offset indent "" = "".
Proof. reflexivity. Qed.

Lemma repr_offset_cons indent c repr :
  repr_offset indent (String c repr)
  = String c ((if Ascii.eqb c "010" then indent else "")
              +:+ repr_offset indent repr).
Proof.
  unfold repr_offset. cbn [String.list_ascii_of_string fold_left].
  rewrite repr_offset_loop_acc. unfold repr_offset_step.
  destruct (Ascii.eqb c "010"); by rewrite app_nil_l, ?app_assoc.
Qed.

Lemma repr_offset_line indent l rest :
  no_newline l →
  repr_offset indent (l +:+ rest) = l +:+ repr_offset indent rest.
Proof.
  unfold no_newline. induction l as [|c l IH]; [done|].
  cbn [String.list_ascii_of_string]. intros [Hc Hl]%Forall_cons.
  rewrite !app_cons, repr_offset_cons, (IH Hl).
  by apply Ascii.eqb_neq in Hc as ->.
Qed.

Lemma repr_offset_lines indent lines :
  Forall no_newline lines →
  repr_offset indent (String.concat endl lines)
  = String.concat (endl +:+ indent) lines.
Proof.
  induction 1 as [|l lines Hl Hlines IH]; [done|].
  destruct lines as [|l' lines].
  - cbn [String.concat]. rewrite <- (app_nil_r l) at 1.
    by rewrite (repr_offset_line _ _ _ Hl), repr_offset_nil, app_nil_r.
  - change (String.concat endl (l :: l' :: lines))
      with (l +:+ endl +:+ String.concat endl (l' :: lines)).
    change (String.concat (endl +:+ indent) (l :: l' :: lines))
      with (l +:+ (endl +:+ indent) +:+ String.concat (endl +:+ indent) (l' :: lines)).
    rewrite (repr_offset_line _ _ _ Hl). unfold endl at 1.
    rewrite app_cons, app_nil_l, repr_offset_cons, IH.
    change (Ascii.eqb "010" "010") with true. cbv iota.
    unfold endl at 2. by rewrite !app_cons, !app_nil_l.
Qed.

(** ** The outer loop of the listing *)

Lemma entry_row_fits uuid t :
  fits_int uuid = true → fits_int (get_repr t) = true →
  entry_row uuid t
  = Some ("|    [" +:+ uuid +:+ "] "
          +:+ repr_offset (indent_for uuid) (get_repr t) +:+ endl).
Proof. intros Hu Hr. unfold entry_row. by rewrite Hu, Hr. Qed.

Lemma content_loop_extends entries : ∀ acc content,
  content_loop entries acc = Some content → ∃ tail, content = acc +:+ tail.
Proof.
  induction entries as [|[u t] entries IH]; intros acc content; cbn [content_loop].
  - intros [= <-]. exists "". by rewrite app_nil_r.
  - destruct (entry_row u t) as [row|]; [|done].
    intros [tail ->]%IH. exists (row +:+ tail). by rewrite app_assoc.
Qed.

Lemma content_loop_row entries uuid t : ∀ acc content,
  content_loop entries acc = Some content →
  (uuid, t) ∈ entries →
  ∃ row before after,
    entry_row uuid t = Some row ∧ content = before +:+ row +:+ after.
Proof.
  induction entries as [|[u' t'] entries IH]; intros acc content;
    cbn [content_loop]; [by intros _ ?%elem_of_nil|].
  destruct (entry_row u' t') as [row'|] eqn:Hrow; [|done].
  intros Hloop [[= -> ->] | Hin]%elem_of_cons.
  - destruct (content_loop_extends _ _ _ Hloop) as [tail ->].
    exists row', acc, tail. split; [done|]. by rewrite app_assoc.
  - by apply (IH _ _ Hloop).
Qed.

Lemma content_loop_total entries : ∀ acc,
  Forall (λ e, fits_int e.1 = true ∧ fits_int (get_repr e.2) = true) entries →
  is_Some (content_loop entries acc).
Proof.
  induction entries as [|[u t] entries IH]; intros acc; cbn [content_loop];
    [by eexists|].
  intros [[Hu Hr] Hrest]%Forall_cons. simpl in Hu, Hr.
  rewrite (entry_row_fits _ _ Hu Hr). by apply IH.
Qed.

Global Instance key_le_total : Total (key_le (Kind := Kind)).
Proof.
  intros [u1 t1] [u2 t2]. unfold key_le. simpl.
  destruct (String.leb_total u1 u2) as [-> | ->]; [by left | by right].
Qed.

Lemma ordered_entries_sorted (m : gmap string (Thing Kind)) :
  Sorted key_le (ordered_entries m).
Proof. apply (Sorted_merge_sort key_le). Qed.

Lemma ordered_entries_elem (m : gmap string (Thing Kind)) uuid t :
  (uuid, t) ∈ ordered_entries m ↔ m !! uuid = Some t.
Proof.
  unfold ordered_entries. rewrite merge_sort_Permutation.
  apply elem_of_map_to_list.
Qed.

Lemma list_entries__unsafe_world print_ w s w' :
  list_entries__unsafe print_ w = Returns s w' →
  w' = (if print_ then print s w else w).
Proof.
  unfold list_entries__unsafe.
  destruct (content_loop _ _) as [content|]; [|done].
  by intros [= <- <-].
Qed.

Lemma list_entries__unsafe_total print_ w :
  (∀ uuid t, _mapping w !! uuid = Some t →
     fits_int uuid = true ∧ fits_int (get_repr t) = true) →
  ∃ s, list_entries__unsafe print_ w
       = Returns s (if print_ then print s w else w).
Proof.
  intros Hfits. unfold list_entries__unsafe.
  destruct (content_loop_total (ordered_entries (_mapping w)) "") as [content ->].
  - apply Forall_forall. intros [u t] Hin%ordered_entries_elem. by apply Hfits.
  - by eexists.
Qed.

(** C8. Listing an empty Codex returns (and prints, when asked to) exactly
    the rule line, the [| Codex:] header and the closing rule, with no row
    between them. The row of an entry whose representation is the lines
    [lines] joined by newlines is [|    [uuid] ] followed by those lines
    joined by a newline, [|       ] and as many spaces as [uuid] has
    characters; and the listing of a Codex holds that row for each of its
    entries, between the header and the closing rule. *)
Theorem list_entries_frame_and_indent :
  (∀ print_ w,
     _mapping w = ∅ →
     list_entries__unsafe print_ w
     = Returns "+---------------------------------------------
| Codex:
+---------------------------------------------
"
         (if print_ then print "+---------------------------------------------
| Codex:
+---------------------------------------------
" w else w))
  ∧ (∀ uuid t lines,
       fits_int uuid = true → fits_int (get_repr t) = true →
       get_repr t = String.concat endl lines →
       Forall no_newline lines →
       entry_row uuid t
       = Some ("|    [" +:+ uuid +:+ "] "
               +:+ String.concat
                     (endl +:+ "|       " +:+ spaces (String.length uuid)) lines
               +:+ endl))
  ∧ (∀ print_ w s w' uuid t,
       list_entries__unsafe print_ w = Returns s w' →
       _mapping w !! uuid = Some t →
       ∃ row before after,
         entry_row uuid t = Some row
         ∧ s = line +:+ prefix +:+ before +:+ row +:+ after +:+ line +:+ endl).
Proof.
  split; [|split].
  - intros print_ w Hempty. unfold list_entries__unsafe, ordered_entries.
    rewrite Hempty, map_to_list_empty. reflexivity.
  - intros uuid t lines Hu Hr Hrepr Hlines.
    rewrite (entry_row_fits _ _ Hu Hr), Hrepr.
    by rewrite (repr_offset_lines _ _ Hlines), indent_for_spaces.
  - intros print_ w s w' uuid t Hlist Hin. unfold list_entries__unsafe in Hlist.
    destruct (content_loop _ _) as [content|] eqn:Hloop; [|done].
    injection Hlist as <- _.
    apply ordered_entries_elem in Hin.
    destruct (content_loop_row _ _ _ _ _ Hloop Hin)
      as (row & before & after & Hrow & ->).
    exists row, before, after. split; [done|]. by rewrite !app_assoc.
Qed.

(** ** Listing is read-only *)

(** C10. A call of [list_entries__unsafe] or [list_entries], with either
    value of [print], leaves the mapping as it was: the same entries, the
    same Things, the same size; it destroys nothing. Both calls do return
    when every identifier and representation fits an [int] index, the gated
    one with the mutex free, and the only thing they change is [std::cout],
    when [print] is set. *)
Theorem list_entries_leaves_codex_unchanged print_ w :
  (∀ s w', list_entries__unsafe print_ w = Returns s w' →
     _mapping w' = _mapping w ∧ size__unsafe w' = size__unsafe w
     ∧ dtor_runs w' = dtor_runs w ∧ mutex w' = mutex w)
  ∧ (∀ s w', list_entries print_ w = Returns s w' →
     _mapping w' = _mapping w ∧ size__unsafe w' = size__unsafe w
     ∧ dtor_runs w' = dtor_runs w ∧ mutex w' = mutex w)
  ∧ ((∀ uuid t, _mapping w !! uuid = Some t →
        fits_int uuid = true ∧ fits_int (get_repr t) = true) →
     ∃ s, list_entries__unsafe print_ w
          = Returns s (if print_ then print s w else w)
        ∧ (mutex w = false →
           list_entries print_ w = Returns s (if print_ then print s w else w))).
Proof.
  split; [|split].
  - intros s w' ->%list_entries__unsafe_world. by destruct print_.
  - intros s w'. unfold list_entries, lock_guard.
    destruct (mutex w) eqn:Hm; [done|].
    destruct (list_entries__unsafe print_ (lock w)) as [s1 w1| | |] eqn:Hl;
      try done.
    apply list_entries__unsafe_world in Hl as ->.
    intros [= <- <-]. by destruct print_.
  - intros Hfits. destruct (list_entries__unsafe_total print_ w Hfits) as [s Hs].
    exists s. split; [done|]. intros Hm.
    unfold list_entries. rewrite (lock_guard_free _ _ Hm).
    destruct (list_entries__unsafe_total print_ (lock w) Hfits) as [s' Hs'].
    assert (s' = s) as ->.
    { unfold list_entries__unsafe in Hs, Hs'. simpl in Hs'.
      destruct (content_loop _ _); [|done]. congruence. }
    rewrite Hs'. simpl. f_equal.
    destruct w as [m mu c d]. simpl in Hm. subst mu. by destruct print_.
Qed.

End Facts.

(** * Further properties of the operations *)

Section Compositions.
Context {Kind : Type} `{Hierarchy Kind}.
Implicit Types (w : World Kind) (t : Thing Kind) (T K : Kind) (uuid u v : string).

(** ** Insertion, resolution, removal *)

Lemma get__unsafe_frame K v w w' :
  _mapping w' !! v = _mapping w !! v →
  get__unsafe K v w' = get__unsafe K v w.
Proof. intros Hv. by rewrite !get__unsafe_lookup, Hv. Qed.

(** X1. An [add__unsafe<T>] of a Thing whose class is [T] or derives from
    it, made when its identifier is not present or is that of a Thing with
    an inert destructor, returns a handle to the new Thing, and right after
    it [get__unsafe] resolves the identifier to the new Thing, as a [T] and
    as a [Thing]; every other identifier resolves as before, for every
    requested kind. When the identifier was not present, the size grows by
    exactly one and nothing is deleted. *)
Theorem add__unsafe_then_get T t w :
  is_base_of T (kind t) = true →
  (∀ old, _mapping w !! get_uuid t = Some old → dtor_inert (kind old) = true) →
  ∃ w', add__unsafe T (Some t) w = Returns (Some t) w'
    ∧ get__unsafe T (get_uuid t) w' = Some t
    ∧ get__unsafe Thing_k (get_uuid t) w' = Some t
    ∧ (∀ K v, v ≠ get_uuid t → get__unsafe K v w' = get__unsafe K v w)
    ∧ (_mapping w !! get_uuid t = None →
       size__unsafe w' = S (size__unsafe w) ∧ dtor_runs w' = dtor_runs w).
Proof.
  intros Hk _. exists (assign (get_uuid t) t w).
  split; [by apply add__unsafe_returns|].
  rewrite !get__unsafe_lookup, assign_mapping, lookup_insert_eq,
    dynamic_cast_Thing. simpl. rewrite Hk.
  split; [done|]. split; [done|]. split.
  - intros K v Hv. apply (get__unsafe_frame K v).
    rewrite assign_mapping. by rewrite lookup_insert_ne.
  - intros Hfresh. split.
    + unfold size__unsafe. rewrite assign_mapping.
      by apply map_size_insert_None.
    + unfold assign. simpl. by rewrite Hfresh.
Qed.

(** X2. Inserting a Thing with an inert destructor under an identifier that
    is not present and then removing that identifier returns [SUCCESS] and
    gives back the mapping there was before the insertion, with its size;
    the identifier no longer resolves, and the one Thing deleted on the way
    is the inserted one. *)
Theorem add_then_remove_restores T t w :
  _mapping w !! get_uuid t = None →
  dtor_inert (kind t) = true →
  ∃ h w1 w2,
    add__unsafe T (Some t) w = Returns h w1
    ∧ remove__unsafe (get_uuid t) w1 = (SUCCESS, w2)
    ∧ _mapping w2 = _mapping w
    ∧ size__unsafe w2 = size__unsafe w
    ∧ (∀ K, get__unsafe K (get_uuid t) w2 = None)
    ∧ dtor_runs w2 = (dtor_runs w ++ [mkDtorRun t])%list.
Proof.
  intros Hfresh _.
  assert (_mapping (assign (get_uuid t) t w) !! get_uuid t = Some t) as Hin
    by (rewrite assign_mapping; apply lookup_insert_eq).
  assert (delete (get_uuid t) (_mapping (assign (get_uuid t) t w)) = _mapping w)
    as Hback by (rewrite assign_mapping; by apply delete_insert_id).
  eexists _, (assign (get_uuid t) t w), _.
  split; [reflexivity|].
  split; [by apply (remove__unsafe_present _ t)|].
  cbn [_mapping dtor_runs]. rewrite Hback.
  split; [done|]. split; [done|]. split.
  - intros K. rewrite get__unsafe_lookup. cbn [_mapping]. by rewrite Hfresh.
  - unfold assign. cbn [dtor_runs]. by rewrite Hfresh.
Qed.

(** X3. [remove__unsafe(u)] returns [SUCCESS] exactly when [u] is present.
    When the Thing stored under [u], if any, has an inert destructor, then
    afterwards [u] resolves to null for every kind, every other identifier
    resolves as before, the size has dropped by one on [SUCCESS] and is the
    same on [FAILURE], and neither the mutex nor [std::cout] has changed. *)
Theorem remove__unsafe_post u w :
  (∀ t, _mapping w !! u = Some t → dtor_inert (kind t) = true) →
  ((remove__unsafe u w).1 = SUCCESS ↔ is_Some (_mapping w !! u))
  ∧ (∀ K, get__unsafe K u (remove__unsafe u w).2 = None)
  ∧ (∀ K v, v ≠ u →
       get__unsafe K v (remove__unsafe u w).2 = get__unsafe K v w)
  ∧ size__unsafe w
    = size__unsafe (remove__unsafe u w).2
      + (if (remove__unsafe u w).1 is SUCCESS then 1 else 0)
  ∧ mutex (remove__unsafe u w).2 = mutex w
  ∧ cout (remove__unsafe u w).2 = cout w.
Proof.
  intros _. split; [|split; [|split]].
  - destruct (_mapping w !! u) as [t|] eqn:Hu.
    + rewrite (remove__unsafe_present _ _ _ Hu). by split; [eexists|].
    + rewrite (remove__unsafe_absent _ _ Hu). split; [done | by intros [? ?]].
  - intros K. rewrite get__unsafe_lookup, remove__unsafe_mapping.
    by rewrite lookup_delete_eq.
  - intros K v Hv. apply (get__unsafe_frame K v).
    rewrite remove__unsafe_mapping. by rewrite lookup_delete_ne.
  - destruct (_mapping w !! u) as [t|] eqn:Hu.
    + rewrite (remove__unsafe_present _ _ _ Hu). unfold size__unsafe.
      cbn. rewrite (size_delete_present _ _ _ Hu). repeat split. lia.
    + rewrite (remove__unsafe_absent _ _ Hu). cbn. repeat split. lia.
Qed.

(** X4. The two ungated resolvers agree: the extra cast to [Thing] that
    [get__unsafe<T>] makes changes nothing, so [_find_one_by_uuid__unsafe<T>]
    returns the same handle, and with the mutex free the gated
    [_find_one_by_uuid<T>] returns what [get__unsafe<T>] returns and leaves
    the world as it was. *)
Theorem resolvers_agree T uuid w :
  _find_one_by_uuid__unsafe T uuid w = get__unsafe T uuid w
  ∧ (mutex w = false →
     _find_one_by_uuid T uuid w = Returns (get__unsafe T uuid w) w).
Proof.
  assert (_find_one_by_uuid__unsafe T uuid w = get__unsafe T uuid w) as Heq
    by by rewrite find_unsafe_lookup, get__unsafe_lookup.
  split; [done|]. intros Hm. unfold _find_one_by_uuid.
  rewrite (lock_guard_free _ _ Hm). cbn [bind].
  rewrite (unlock_lock _ Hm). f_equal.
  by rewrite find_unsafe_lookup, get__unsafe_lookup.
Qed.

(** ** What the ungated forms leave alone *)

Lemma remove__unsafe_mutex u w : mutex (remove__unsafe u w).2 = mutex w.
Proof.
  destruct (_mapping w !! u) as [t|] eqn:Hu.
  - by rewrite (remove__unsafe_present _ _ _ Hu).
  - by rewrite (remove__unsafe_absent _ _ Hu).
Qed.

Lemma step_mutex (op : Op Kind) w : mutex (step op w).2 = mutex w.
Proof.
  destruct op as [T t | uuid].
  - by rewrite step_Insert.
  - rewrite step_Remove. apply remove__unsafe_mutex.
Qed.

Lemma run_mutex (ops : list (Op Kind)) : ∀ w, mutex (run ops w).2 = mutex w.
Proof.
  induction ops as [|op ops IH]; intros w; [done|].
  rewrite run_cons. cbn [snd]. by rewrite IH, step_mutex.
Qed.

(** ** Ownership along a sequence of operations *)

Lemma step_owned (op : Op Kind) w :
  size__unsafe (step op w).2 + length (dtor_runs (step op w).2)
  = size__unsafe w + length (dtor_runs w) + insertions [(step op w).1].
Proof.
  destruct op as [T t | uuid].
  - rewrite step_Insert. unfold size__unsafe, assign. cbn.
    rewrite map_size_insert.
    destruct (_mapping w !! get_uuid t); [rewrite length_app|]; cbn; lia.
  - rewrite step_Remove. destruct (_mapping w !! uuid) as [t|] eqn:Hu.
    + rewrite (remove__unsafe_present _ _ _ Hu). unfold size__unsafe. cbn.
      rewrite (size_delete_present _ _ _ Hu), length_app. cbn. lia.
    + rewrite (remove__unsafe_absent _ _ Hu). cbn. lia.
Qed.

Lemma run_owned (ops : list (Op Kind)) : ∀ w,
  size__unsafe (run ops w).2 + length (dtor_runs (run ops w).2)
  = size__unsafe w + length (dtor_runs w) + insertions (run ops w).1.
Proof.
  induction ops as [|op ops IH]; intros w; [cbn; lia|].
  rewrite run_cons. cbn [fst snd].
  specialize (IH (step op w).2). pose proof (step_owned op w) as Hs.
  unfold insertions in *. cbn in *. lia.
Qed.

Lemma owned_delete S u t w :
  owned S w → _mapping w !! u = Some t →
  owned S (mkWorld (delete u (_mapping w)) (mutex w) (cout w)
             (dtor_runs w ++ [mkDtorRun t])).
Proof.
  intros (Hstored & Hseen & Hinj & Hnodup) Hu.
  destruct (Hstored _ _ Hu) as [HtS Htlive].
  unfold owned, destroyed_oids in *. cbn [_mapping dtor_runs].
  rewrite fmap_app. cbn [fmap list_fmap dtor_this].
  split; [|split; [|split]].
  - intros v t' [Hv Hlook]%lookup_delete_Some.
    destruct (Hstored _ _ Hlook) as [HS Hlive]. split; [done|].
    intros [Hin | Hin%list_elem_of_singleton]%elem_of_app; [done|].
    by apply Hv, (Hinj _ _ _ _ Hu Hlook).
  - intros o [Hin | ->%list_elem_of_singleton]%elem_of_app; [by apply Hseen | done].
  - intros u1 u2 t1 t2 [_ H1]%lookup_delete_Some [_ H2]%lookup_delete_Some.
    by apply Hinj.
  - apply NoDup_app. split; [done|]. split; [|apply NoDup_singleton].
    intros o Ho ->%list_elem_of_singleton. done.
Qed.

Lemma owned_step_Remove S uuid w :
  owned S w → owned S (step (Remove uuid) w).2.
Proof.
  intros Hw. rewrite step_Remove.
  destruct (_mapping w !! uuid) as [t|] eqn:Hu.
  - rewrite (remove__unsafe_present _ _ _ Hu). by apply owned_delete.
  - by rewrite (remove__unsafe_absent _ _ Hu).
Qed.

Lemma owned_step_Insert S T t w :
  owned S w → oid t ∉ S → owned (oid t :: S) (step (Insert T t) w).2.
Proof.
  intros Hw Hnew. rewrite step_Insert. cbn [snd].
  assert (owned S (mkWorld (delete (get_uuid t) (_mapping w)) (mutex w) (cout w)
                     match _mapping w !! get_uuid t with
                     | Some old => (dtor_runs w ++ [mkDtorRun old])%list
                     | None => dtor_runs w
                     end)) as (Hstored & Hseen & Hinj & Hnodup).
  { destruct (_mapping w !! get_uuid t) as [old|] eqn:Hold.
    - by apply owned_delete.
    - rewrite delete_id by done. by destruct w. }
  unfold owned, destroyed_oids, assign in *. cbn [_mapping dtor_runs] in *.
  split; [|split; [|split]].
  - intros v t' Hlook. rewrite lookup_insert in Hlook. case_decide as Hv.
    + injection Hlook as <-. split; [by left|].
      intros Hin. by apply Hnew, Hseen.
    + assert (delete (get_uuid t) (_mapping w) !! v = Some t') as Hdel
        by by rewrite lookup_delete_ne.
      destruct (Hstored _ _ Hdel) as [HS Hlive]. split; [by right | done].
  - intros o Ho. right. by apply Hseen.
  - intros u1 u2 t1 t2 H1 H2 Hoid. rewrite lookup_insert in H1, H2.
    destruct (decide (get_uuid t = u1)) as [<-|Hn1],
      (decide (get_uuid t = u2)) as [<-|Hn2]; [done| | |].
    + injection H1 as <-.
      assert (delete (get_uuid t) (_mapping w) !! u2 = Some t2) as Hdel
        by by rewrite lookup_delete_ne.
      destruct (Hstored _ _ Hdel) as [HS _]. rewrite <- Hoid in HS. done.
    + injection H2 as <-.
      assert (delete (get_uuid t) (_mapping w) !! u1 = Some t1) as Hdel
        by by rewrite lookup_delete_ne.
      destruct (Hstored _ _ Hdel) as [HS _]. rewrite Hoid in HS. done.
    + apply (Hinj u1 u2 t1 t2); [by rewrite lookup_delete_ne..|done].
  - done.
Qed.

Lemma owned_run (ops : list (Op Kind)) : ∀ S w,
  owned S w → NoDup (inserted_oids ops) →
  (∀ o, o ∈ inserted_oids ops → o ∉ S) →
  ∃ S', owned S' (run ops w).2.
Proof.
  induction ops as [|[T t | uuid] ops IH]; intros S w Hw Hnodup Hfresh.
  - by exists S.
  - rewrite run_cons. cbn [snd]. cbn in Hnodup, Hfresh.
    apply NoDup_cons in Hnodup as [Hnotin Hnodup].
    apply (IH (oid t :: S)); [|done|].
    + apply owned_step_Insert; [done|]. apply Hfresh. by left.
    + intros o Ho [-> | HS]%elem_of_cons; [done|].
      by apply (Hfresh o); [right|].
  - rewrite run_cons. cbn [snd]. apply (IH S); [|done|done].
    by apply owned_step_Remove.
Qed.

Lemma owned_initial : owned [] (initial : World Kind).
Proof.
  unfold owned, destroyed_oids. cbn. split; [|split; [|split]].
  - intros u t Hu. by rewrite lookup_empty in Hu.
  - by intros o ?%elem_of_nil.
  - intros u1 u2 t1 t2 Hu. by rewrite lookup_empty in Hu.
  - constructor.
Qed.

Lemma owned_live S w u t :
  owned S w → _mapping w !! u = Some t → destroyed w t = false.
Proof.
  intros (Hstored & _) Hu. unfold destroyed.
  apply bool_decide_eq_false_2. by apply (Hstored u t).
Qed.

(** X6. Every object handed to the Codex is either still stored or has
    been deleted, exactly once and never both: after any sequence of
    [add__unsafe] and [remove__unsafe] calls on an empty Codex that inserts
    distinct objects with inert destructors, the number of insertions is
    the size plus the number of destructor runs, no object has been deleted
    twice, and no stored object has been deleted. *)
Theorem inserted_stored_or_destroyed (ops : list (Op Kind)) :
  inert_ops ops →
  NoDup (inserted_oids ops) →
  insertions (run ops initial).1
  = size__unsafe (run ops initial).2 + length (dtor_runs (run ops initial).2)
  ∧ NoDup (destroyed_oids (run ops initial).2)
  ∧ (∀ u t, _mapping (run ops initial).2 !! u = Some t →
            destroyed (run ops initial).2 t = false).
Proof.
  intros _ Hnodup.
  destruct (owned_run ops [] initial owned_initial Hnodup) as [S Howned].
  { intros o _. by intros ?%elem_of_nil. }
  split; [|split].
  - pose proof (run_owned ops initial) as Hrun.
    change (size__unsafe initial) with (size (∅ : gmap string (Thing Kind)))
      in Hrun.
    rewrite map_size_empty in Hrun. cbn in Hrun. lia.
  - apply Howned.
  - intros u t. by apply (owned_live S).
Qed.

(** ** From a resolved handle to its removal *)

Lemma dynamic_cast_Some T (ptr : option (Thing Kind)) t :
  dynamic_cast T ptr = Some t → ptr = Some t.
Proof.
  destruct ptr as [t'|]; [|done]. simpl.
  destruct (is_base_of T (kind t')); [by intros [= ->] | done].
Qed.

(** X7. In a Codex built from the empty one by [add__unsafe] and
    [remove__unsafe] calls that insert distinct objects with inert
    destructors, a handle that [get__unsafe<T>(u)] returned points to a live
    Thing and can be given to [remove(Thing* ptr)]: the call returns
    [SUCCESS] and removes the entry of [u] and no other, so that [u]
    resolves to null afterwards; the mutex is free again, and the handle is
    dangling from then on. *)
Theorem resolved_handle_removes_its_entry (ops : list (Op Kind)) T u t :
  inert_ops ops →
  NoDup (inserted_oids ops) →
  get__unsafe T u (run ops initial).2 = Some t →
  ∃ w', remove_ptr (Some t) (run ops initial).2 = Returns SUCCESS w'
      ∧ _mapping w' = delete u (_mapping (run ops initial).2)
      ∧ (∀ K, get__unsafe K u w' = None)
      ∧ mutex w' = false
      ∧ destroyed w' t = true.
Proof.
  intros _ Hnodup Hget. rewrite get__unsafe_lookup in Hget.
  apply dynamic_cast_Some in Hget.
  pose proof (run_keyed ops initial initial_keyed _ _ Hget) as Hkey.
  assert (mutex (run ops initial).2 = false) as Hm by by rewrite run_mutex.
  destruct (owned_run ops [] initial owned_initial Hnodup) as [S Howned].
  { intros o _. by intros ?%elem_of_nil. }
  pose proof (owned_live _ _ _ _ Howned Hget) as Hlive.
  unfold remove_ptr. rewrite (lock_guard_free _ _ Hm), destroyed_lock, Hlive.
  rewrite Hkey.
  rewrite (remove__unsafe_present u t (lock (run ops initial).2) Hget).
  eexists. split; [reflexivity|]. cbn. split; [done|]. split; [|split; [done|]].
  - intros K. rewrite get__unsafe_lookup. cbn. by rewrite lookup_delete_eq.
  - unfold destroyed. cbn. apply bool_decide_eq_true_2.
    rewrite fmap_app. apply elem_of_app. right. cbn. by left.
Qed.

(** ** The factory *)

Lemma _new_uuid_world p w :
  _mapping (_new_uuid p w).2 = _mapping w
  ∧ mutex (_new_uuid p w).2 = mutex w
  ∧ dtor_runs (_new_uuid p w).2 = dtor_runs w.
Proof.
  destruct p as [status1 status2 str | uuid_str]; [|done]. unfold _new_uuid.
  by destruct (negb (status1 =? 0)%Z), (negb (status2 =? 0)%Z).
Qed.

Lemma _new_uuid_failure status1 status2 str w :
  status1 ≠ 0%Z ∨ status2 ≠ 0%Z →
  (_new_uuid (Win32 status1 status2 str) w).1 = "".
Proof.
  intros Hfail. unfold _new_uuid.
  destruct (Z.eqb_spec status1 0), (Z.eqb_spec status2 0); simpl; try done.
  destruct Hfail; congruence.
Qed.

Lemma create_free o p w :
  mutex w = false →
  create o p w
  = Returns (Some (mkThing o (_new_uuid p w).1 Thing_k ""))
      (assign (_new_uuid p w).1 (mkThing o (_new_uuid p w).1 Thing_k "")
         (_new_uuid p w).2).
Proof.
  intros Hm. unfold create, Thing_ctor.
  destruct (_new_uuid_world p w) as (_ & Hmutex & _).
  destruct (_new_uuid p w) as [uuid w1]. cbn [fst snd] in *.
  rewrite Hm in Hmutex. rewrite (add_free _ _ _ Hmutex).
  rewrite add__unsafe_returns by apply is_base_of_Thing.
  cbn [bind get_uuid _uuid]. f_equal.
  destruct w1 as [m1 mu1 c1 d1]. cbn in Hmutex. by subst mu1.
Qed.

(** X8. With the mutex free, and the minted identifier not present or that
    of a Thing with an inert destructor, [Thing::create()] returns a handle
    to the new object, of class [Thing], whose identifier is the one
    [_new_uuid] minted; the Codex stores it under that identifier, where
    [get__unsafe] finds it; every other identifier resolves as before, the
    mutex is free again, and the size has grown by one when the identifier
    was not present. *)
Theorem create_registers_a_Thing o p w :
  mutex w = false →
  (∀ old, _mapping w !! (_new_uuid p w).1 = Some old →
          dtor_inert (kind old) = true) →
  ∃ t w', create o p w = Returns (Some t) w'
    ∧ oid t = o ∧ get_uuid t = (_new_uuid p w).1 ∧ kind t = Thing_k
    ∧ _mapping w' !! get_uuid t = Some t
    ∧ get__unsafe Thing_k (get_uuid t) w' = Some t
    ∧ (∀ K v, v ≠ get_uuid t → get__unsafe K v w' = get__unsafe K v w)
    ∧ mutex w' = false
    ∧ (_mapping w !! get_uuid t = None → size__unsafe w' = S (size__unsafe w)).
Proof.
  intros Hm _. destruct (_new_uuid_world p w) as (Hmap & Hmutex & _).
  eexists _, _. split; [by apply create_free|].
  cbn [oid get_uuid _uuid kind]. split; [done|]. split; [done|]. split; [done|].
  rewrite get__unsafe_lookup, assign_mapping, lookup_insert_eq,
    dynamic_cast_Thing.
  split; [done|]. split; [done|]. split; [|split].
  - intros K v Hv. rewrite !get__unsafe_lookup, assign_mapping.
    by rewrite lookup_insert_ne, Hmap.
  - cbn. congruence.
  - intros Hfresh. unfold size__unsafe. rewrite assign_mapping, Hmap.
    by apply map_size_insert_None.
Qed.

(** X9. When the Windows facility fails for two [Thing::create()] calls in
    a row, on a Codex with nothing under the empty key, both objects get
    the empty identifier: the second call stores the second object under
    the key [""] in place of the first and deletes the first, so that the
    handle the first call returned is dangling and [remove(Thing* ptr)] on
    it is undefined; the size stays what it was after the first call. *)
Theorem failed_mintings_collide o1 o2 status1 status2 str status1' status2' str' w :
  mutex w = false →
  _mapping w !! "" = None →
  o1 ≠ o2 →
  status1 ≠ 0%Z ∨ status2 ≠ 0%Z →
  status1' ≠ 0%Z ∨ status2' ≠ 0%Z →
  ∃ t1 w1 t2 w2,
    create o1 (Win32 status1 status2 str) w = Returns (Some t1) w1
    ∧ create o2 (Win32 status1' status2' str') w1 = Returns (Some t2) w2
    ∧ oid t1 = o1 ∧ oid t2 = o2 ∧ get_uuid t1 = "" ∧ get_uuid t2 = ""
    ∧ _mapping w1 !! "" = Some t1
    ∧ _mapping w2 !! "" = Some t2
    ∧ size__unsafe w2 = size__unsafe w1
    ∧ dtor_runs w2 = (dtor_runs w1 ++ [mkDtorRun t1])%list
    ∧ remove_ptr (Some t1) w2 = Undefined.
Proof.
  intros Hm Hfresh Hoids Hfail Hfail'.
  set (t1 := mkThing o1 "" Thing_k "" : Thing Kind).
  set (t2 := mkThing o2 "" Thing_k "" : Thing Kind).
  set (w1 := assign "" t1 (_new_uuid (Win32 status1 status2 str) w).2).
  set (w2 := assign "" t2 (_new_uuid (Win32 status1' status2' str') w1).2).
  assert (create o1 (Win32 status1 status2 str) w = Returns (Some t1) w1)
    as Hfirst.
  { rewrite (create_free _ _ _ Hm). by rewrite (_new_uuid_failure _ _ _ _ Hfail). }
  assert (mutex w1 = false) as Hm1.
  { destruct (_new_uuid_world (Win32 status1 status2 str) w) as (_ & Hmu & _).
    change (mutex w1) with (mutex (_new_uuid (Win32 status1 status2 str) w).2).
    congruence. }
  assert (_mapping w1 !! "" = Some t1) as Hstored by apply lookup_insert_eq.
  destruct (_new_uuid_world (Win32 status1' status2' str') w1)
    as (Hmap' & Hmu' & Hruns').
  assert (dtor_runs w2 = (dtor_runs w1 ++ [mkDtorRun t1])%list) as Hlog.
  { unfold w2, assign at 1. cbn [dtor_runs]. by rewrite Hmap', Hstored, Hruns'. }
  assert (mutex w2 = false) as Hm2.
  { change (mutex w2)
      with (mutex (_new_uuid (Win32 status1' status2' str') w1).2).
    congruence. }
  exists t1, w1, t2, w2. split; [exact Hfirst|]. split.
  { rewrite (create_free _ _ _ Hm1).
    by rewrite (_new_uuid_failure _ _ _ _ Hfail'). }
  do 4 (split; [done|]). split; [exact Hstored|].
  split; [apply lookup_insert_eq|]. split; [|split; [exact Hlog|]].
  - unfold size__unsafe, w2. rewrite assign_mapping, Hmap'.
    apply map_size_insert_Some. by eexists.
  - unfold remove_ptr, lock_guard. rewrite Hm2, destroyed_lock.
    unfold destroyed. rewrite Hlog, fmap_app, bool_decide_eq_true_2; [done|].
    apply elem_of_app. right. cbn. by left.
Qed.


(** ** The table that [list_entries] builds *)

Lemma concat_rows_cons (row : string) rows :
  String.concat "" (row :: rows) = row +:+ String.concat "" rows.
Proof. destruct rows; [by rewrite app_nil_r | reflexivity]. Qed.

Lemma content_loop_rows entries : ∀ acc content,
  content_loop entries acc = Some content →
  ∃ rows : list string,
    Forall2 (λ (e : string * Thing Kind) row, entry_row e.1 e.2 = Some row)
      entries rows
    ∧ content = acc +:+ String.concat "" rows.
Proof.
  induction entries as [|[u t] entries IH]; intros acc content;
    cbn [content_loop].
  - intros [= <-]. exists []. split; [constructor | by rewrite app_nil_r].
  - destruct (entry_row u t) as [row|] eqn:Hrow; [|done].
    intros (rows & Hrows & ->)%IH. exists (row :: rows).
    split; [by constructor|]. by rewrite concat_rows_cons, app_assoc.
Qed.

(** X10. The table that [list_entries__unsafe] returns is the rule line,
    the header, one row for each entry of the Codex and the closing rule:
    as many rows as [size__unsafe()] reports, each the row of its entry, in
    ascending order of the identifiers, no identifier twice. *)
Theorem list_entries_rows_in_key_order print_ w s w' :
  list_entries__unsafe print_ w = Returns s w' →
  ∃ rows : list string,
    Forall2 (λ (e : string * Thing Kind) row, entry_row e.1 e.2 = Some row)
      (ordered_entries (_mapping w)) rows
    ∧ s = line +:+ prefix +:+ String.concat "" rows +:+ line +:+ endl
    ∧ length rows = size__unsafe w
    ∧ Sorted key_le (ordered_entries (_mapping w))
    ∧ NoDup (ordered_entries (_mapping w)).*1
    ∧ (∀ u t, (u, t) ∈ ordered_entries (_mapping w) ↔ _mapping w !! u = Some t).
Proof.
  unfold list_entries__unsafe.
  destruct (content_loop _ _) as [content|] eqn:Hloop; [|done].
  intros [= <- _].
  destruct (content_loop_rows _ _ _ Hloop) as (rows & Hrows & ->).
  exists rows. split; [done|]. split; [done|]. split; [|split; [|split]].
  - rewrite <- (Forall2_length _ _ _ Hrows). unfold ordered_entries, size__unsafe.
    by rewrite merge_sort_Permutation, length_map_to_list.
  - apply ordered_entries_sorted.
  - unfold ordered_entries. rewrite merge_sort_Permutation.
    apply NoDup_fst_map_to_list.
  - intros u t. apply ordered_entries_elem.
Qed.

(** X11. [list_entries__unsafe(true)] returns the very text it sends to
    [std::cout], and that text is what [list_entries__unsafe(false)] returns
    without printing anything; with the mutex free the gated [list_entries]
    does the same. *)
Theorem list_entries_returns_what_it_prints w s w' :
  list_entries__unsafe true w = Returns s w' →
  cout w' = cout w +:+ s
  ∧ list_entries__unsafe false w = Returns s w
  ∧ (mutex w = false →
     list_entries true w = Returns s w' ∧ list_entries false w = Returns s w).
Proof.
  intros Hprint. pose proof (list_entries__unsafe_world _ _ _ _ Hprint) as ->.
  assert (list_entries__unsafe false w = Returns s w) as Hquiet.
  { unfold list_entries__unsafe in *.
    destruct (content_loop _ _); [|done]. by injection Hprint as ->. }
  split; [done|]. split; [done|]. intros Hm.
  assert (∀ b, list_entries__unsafe b (lock w)
               = Returns s (if b then print s (lock w) else lock w)) as Hlocked.
  { intros b. unfold list_entries__unsafe in *. cbn [_mapping lock].
    destruct (content_loop _ _); [|done]. injection Hquiet as ->.
    by destruct b. }
  unfold list_entries. rewrite !(lock_guard_free _ _ Hm), !Hlocked. cbn [bind].
  destruct w as [m mu c d]. cbn in Hm. subst mu. by split.
Qed.

Lemma no_newline_app (l1 l2 : string) :
  no_newline l1 → no_newline l2 → no_newline (l1 +:+ l2).
Proof.
  unfold no_newline. induction l1 as [|c l1 IH]; [done|].
  cbn [String.list_ascii_of_string]. intros [Hc Hl1]%Forall_cons Hl2.
  rewrite app_cons. cbn [String.list_ascii_of_string].
  apply Forall_cons. split; [done | by apply IH].
Qed.

(** X12. For a Thing whose class does not override [get_repr], and whose
    type name and identifier hold no newline, the row of the table is one
    line: the identifier in brackets, then the default representation
    [<'name' object at [uuid]>]. *)
Theorem default_repr_row uuid t :
  get_repr_override (kind t) = None →
  no_newline (typeid_name (kind t)) →
  no_newline (get_uuid t) →
  fits_int uuid = true →
  fits_int (get_repr t) = true →
  entry_row uuid t
  = Some ("|    [" +:+ uuid +:+ "] " +:+
          ("<'" +:+ typeid_name (kind t) +:+ "' object at [" +:+ get_uuid t
           +:+ "]>") +:+ endl).
Proof.
  intros Hdefault Hname Huuid Hfu Hfr.
  rewrite (entry_row_fits _ _ Hfu Hfr). unfold get_repr. rewrite Hdefault.
  unfold Thing_get_repr.
  assert (no_newline ("<'" +:+ typeid_name (kind t) +:+ "' object at ["
                      +:+ get_uuid t +:+ "]>")) as Hline.
  { repeat apply no_newline_app; try done; repeat constructor; discriminate. }
  rewrite <- (app_nil_r (_ +:+ _ +:+ _ +:+ _ +:+ "]>")) at 1.
  by rewrite (repr_offset_line _ _ _ Hline), repr_offset_nil, app_nil_r.
Qed.

Lemma length_app (s1 s2 : string) :
  String.length (s1 +:+ s2) = String.length s1 + String.length s2.
Proof.
  induction s1 as [|c s1 IH]; [done|]. rewrite app_cons. simpl. by rewrite IH.
Qed.

Lemma newlines_cons c (s : string) :
  newlines (String c s)
  = (if Ascii.eqb c "010" then 1 else 0) + newlines s.
Proof.
  unfold newlines. cbn [String.list_ascii_of_string]. rewrite filter_cons.
  destruct (Ascii.eqb_spec c "010"); case_decide; done.
Qed.

(** X13. The indent put before a continuation line is as wide as what
    precedes the representation on the first line of the row, [|    [],
    the identifier and [] ], so the lines of a representation start in the
    same column; and the indented representation is longer than the
    representation by one indent for each newline in it. *)
Theorem continuation_lines_align uuid repr :
  String.length (indent_for uuid) = String.length ("|    [" +:+ uuid +:+ "] ")
  ∧ String.length (repr_offset (indent_for uuid) repr)
    = String.length repr + newlines repr * (8 + String.length uuid).
Proof.
  assert (String.length (indent_for uuid) = 8 + String.length uuid) as Hindent.
  { by rewrite indent_for_spaces, length_app, spaces_length. }
  split.
  - rewrite Hindent, !length_app. cbn. lia.
  - rewrite <- Hindent. generalize (indent_for uuid) as indent. intros indent.
    induction repr as [|c repr IH]; [done|].
    rewrite repr_offset_cons, newlines_cons. cbn [String.length].
    rewrite length_app, IH. destruct (Ascii.eqb c "010"); cbn; lia.
Qed.

(** X14. The table does not depend on the order of insertion: inserting
    two Things with different identifiers, each under an identifier that is
    not present or is that of a Thing with an inert destructor, in one order
    or the other gives the same mapping, and [list_entries__unsafe] returns
    the same text for both. *)
Theorem insertion_order_is_not_listed T1 t1 T2 t2 w :
  get_uuid t1 ≠ get_uuid t2 →
  (∀ u old, u = get_uuid t1 ∨ u = get_uuid t2 →
            _mapping w !! u = Some old → dtor_inert (kind old) = true) →
  _mapping (run [Insert T1 t1; Insert T2 t2] w).2
  = _mapping (run [Insert T2 t2; Insert T1 t1] w).2
  ∧ (∀ s, list_entries__unsafe false (run [Insert T1 t1; Insert T2 t2] w).2
          = Returns s (run [Insert T1 t1; Insert T2 t2] w).2 →
          list_entries__unsafe false (run [Insert T2 t2; Insert T1 t1] w).2
          = Returns s (run [Insert T2 t2; Insert T1 t1] w).2).
Proof.
  intros Hne _.
  assert (_mapping (run [Insert T1 t1; Insert T2 t2] w).2
          = _mapping (run [Insert T2 t2; Insert T1 t1] w).2) as Hsame.
  { rewrite !run_cons, !step_Insert. cbn [snd run]. rewrite !assign_mapping.
    by apply insert_insert_ne. }
  split; [done|]. intros s. unfold list_entries__unsafe. rewrite Hsame.
  destruct (content_loop _ _); [|done]. by intros [= <-].
Qed.

End Compositions.

(** * The properties on the [Family] hierarchy *)

Import Family.

Ltac by_computation := vm_compute; reflexivity.

Lemma get__unsafe_kind_checked_witness :
  _mapping two !! get_uuid alice = Some alice
  ∧ get__unsafe KParent "a1" two = Some alice
  ∧ get__unsafe KChild "a1" two = None
  ∧ get__unsafe KThing "a1" two = Some alice
  ∧ get__unsafe KParent "zz" two = None.
Proof.
  assert (_mapping two !! get_uuid alice = Some alice) as Hstored
    by by_computation.
  destruct (get__unsafe_kind_checked KParent two) as [Hparent Habsent].
  destruct (get__unsafe_kind_checked KChild two) as [Hchild _].
  destruct (Hparent alice Hstored) as (_ & Hyes & _ & Hbase).
  destruct (Hchild alice Hstored) as (_ & _ & Hno & _).
  split; [exact Hstored|]. split; [apply Hyes; reflexivity|].
  split; [apply Hno; reflexivity|]. split; [exact Hbase|].
  apply Habsent. by_computation.
Defined.

Lemma absent_identifier_not_found_witness :
  _mapping two !! "zz" = None
  ∧ (∀ T, get__unsafe T "zz" two = None)
  ∧ remove__unsafe "zz" two = (FAILURE, two)
  ∧ remove "zz" two = Returns FAILURE two
  ∧ remove__unsafe "a1" two = (SUCCESS, (remove__unsafe "a1" two).2)
  ∧ remove__unsafe "a1"
      (Nat.iter 3 (λ w', (remove__unsafe "a1" w').2) (remove__unsafe "a1" two).2)
    = (FAILURE, (remove__unsafe "a1" two).2).
Proof.
  assert (_mapping two !! "zz" = None) as Habsent by by_computation.
  assert (remove__unsafe "a1" two = (SUCCESS, (remove__unsafe "a1" two).2))
    as Hfirst by by_computation.
  destruct (absent_identifier_not_found "zz" two) as [Hzz _].
  destruct (absent_identifier_not_found "a1" two) as [_ Hagain].
  destruct (Hzz Habsent) as (Hget & Hrm & Hgated).
  split; [exact Habsent|]. split; [exact Hget|]. split; [exact Hrm|].
  split; [apply Hgated; reflexivity|]. split; [exact Hfirst|].
  exact (Hagain _ Hfirst 3).
Defined.

Lemma two_fits :
  ∀ uuid t, _mapping two !! uuid = Some t →
    fits_int uuid = true ∧ fits_int (get_repr t) = true.
Proof.
  change (map_Forall (λ uuid t, fits_int uuid = true ∧ fits_int (get_repr t) = true)
            (_mapping two)).
  apply (bool_decide_unpack _). by vm_compute.
Defined.

(** [bob]'s representation has two lines; under the four characters of
    ["b2"] and its brackets the second line starts in column ten. *)
Lemma list_entries_frame_and_indent_witness :
  _mapping (initial : World Kind) = ∅
  ∧ list_entries__unsafe false (initial : World Kind)
    = Returns "+---------------------------------------------
| Codex:
+---------------------------------------------
" initial
  ∧ fits_int "b2" = true ∧ fits_int (get_repr bob) = true
  ∧ get_repr bob = String.concat endl ["child"; "of a1"]
  ∧ Forall no_newline ["child"; "of a1"]
  ∧ entry_row "b2" bob = Some "|    [b2] child
|         of a1
"
  ∧ ∃ s row before after,
      list_entries__unsafe false two = Returns s two
      ∧ _mapping two !! "b2" = Some bob
      ∧ entry_row "b2" bob = Some row
      ∧ s = line +:+ prefix +:+ before +:+ row +:+ after +:+ line +:+ endl.
Proof.
  assert (Forall no_newline ["child"; "of a1"]) as Hlines.
  { repeat constructor; discriminate. }
  assert (list_entries__unsafe false two
          = Returns (match list_entries__unsafe false two with
                     | Returns s _ => s | _ => "" end) two) as Hlist
    by by_computation.
  assert (_mapping two !! "b2" = Some bob) as Hbob by by_computation.
  destruct (@list_entries_frame_and_indent Kind family)
    as (Hframe & Hrow & Hrows).
  split; [reflexivity|].
  split; [exact (Hframe false initial eq_refl)|].
  split; [reflexivity|]. split; [reflexivity|]. split; [reflexivity|].
  split; [exact Hlines|].
  split; [exact (Hrow "b2" bob ["child"; "of a1"] eq_refl eq_refl eq_refl Hlines)|].
  destruct (Hrows false two _ two "b2" bob Hlist Hbob)
    as (row & before & after & Hr & Hs).
  eexists. exists row, before, after.
  split; [exact Hlist|]. split; [exact Hbob|]. split; [exact Hr | exact Hs].
Defined.

Lemma list_entries_leaves_codex_unchanged_witness :
  (∀ uuid t, _mapping two !! uuid = Some t →
     fits_int uuid = true ∧ fits_int (get_repr t) = true)
  ∧ mutex two = false
  ∧ ∃ s w', list_entries true two = Returns s w'
      ∧ list_entries__unsafe true two = Returns s w'
      ∧ _mapping w' = _mapping two ∧ size__unsafe w' = size__unsafe two
      ∧ dtor_runs w' = dtor_runs two ∧ mutex w' = mutex two
      ∧ cout w' = s.
Proof.
  split; [exact two_fits|]. split; [reflexivity|].
  destruct (list_entries_leaves_codex_unchanged true two)
    as (Hunsafe & _ & Htotal).
  destruct (Htotal two_fits) as (s & Hs & Hgated).
  exists s, (print s two). split; [by apply Hgated|]. split; [exact Hs|].
  destruct (Hunsafe _ _ Hs) as (? & ? & ? & ?). by repeat split.
Defined.

(** ** The further properties on the [Family] hierarchy *)

Lemma resolvers_agree_witness :
  mutex two = false
  ∧ _find_one_by_uuid__unsafe KChild "b2" two = get__unsafe KChild "b2" two
  ∧ _find_one_by_uuid KChild "b2" two = Returns (Some bob) two.
Proof.
  assert (mutex two = false) as Hfree by reflexivity.
  split; [exact Hfree|].
  destruct (resolvers_agree KChild "b2" two) as [Hsame Hgated].
  split; [exact Hsame|]. exact (Hgated Hfree).
Defined.

Lemma list_entries_rows_in_key_order_witness :
  list_entries__unsafe false two
  = Returns "+---------------------------------------------
| Codex:
|    [a1] <'6Parent' object at [a1]>
|    [b2] child
|         of a1
+---------------------------------------------
" two
  ∧ ∃ rows : list string,
      Forall2 (λ (e : string * Thing Kind) row, entry_row e.1 e.2 = Some row)
        (ordered_entries (_mapping two)) rows
      ∧ length rows = size__unsafe two
      ∧ Sorted key_le (ordered_entries (_mapping two)).
Proof.
  assert (list_entries__unsafe false two
          = Returns "+---------------------------------------------
| Codex:
|    [a1] <'6Parent' object at [a1]>
|    [b2] child
|         of a1
+---------------------------------------------
" two) as Hlist by by_computation.
  split; [exact Hlist|].
  destruct (list_entries_rows_in_key_order false two _ _ Hlist)
    as (rows & Hrows & _ & Hlen & Hsorted & _).
  by exists rows.
Defined.

Lemma list_entries_returns_what_it_prints_witness :
  ∃ s, list_entries__unsafe true two = Returns s (print s two)
    ∧ mutex two = false
    ∧ cout (print s two) = cout two +:+ s
    ∧ list_entries__unsafe false two = Returns s two
    ∧ list_entries true two = Returns s (print s two)
    ∧ list_entries false two = Returns s two.
Proof.
  destruct (list_entries__unsafe_total true two two_fits) as [s Hs].
  assert (mutex two = false) as Hfree by reflexivity.
  exists s. split; [exact Hs|]. split; [exact Hfree|].
  destruct (list_entries_returns_what_it_prints two s _ Hs)
    as (Hcout & Hquiet & Hgated).
  destruct (Hgated Hfree) as [Hloud Hsilent].
  by repeat split.
Defined.

Lemma default_repr_row_witness :
  get_repr_override (kind alice) = None
  ∧ no_newline (typeid_name (kind alice))
  ∧ no_newline (get_uuid alice)
  ∧ fits_int "a1" = true ∧ fits_int (get_repr alice) = true
  ∧ entry_row "a1" alice = Some "|    [a1] <'6Parent' object at [a1]>
".
Proof.
  assert (no_newline (typeid_name (kind alice))) as Hname
    by (repeat constructor; discriminate).
  assert (no_newline (get_uuid alice)) as Huuid
    by (repeat constructor; discriminate).
  assert (get_repr_override (kind alice) = None) as Hdefault by reflexivity.
  assert (fits_int "a1" = true) as Hfu by reflexivity.
  assert (fits_int (get_repr alice) = true) as Hfr by reflexivity.
  split; [exact Hdefault|]. split; [exact Hname|]. split; [exact Huuid|].
  split; [exact Hfu|]. split; [exact Hfr|].
  exact (default_repr_row "a1" alice Hdefault Hname Huuid Hfu Hfr).
Defined.


(** ** The amended claims on the [Family] hierarchy *)

Lemma add__unsafe_present_overwrites_witness :
  _mapping two !! get_uuid dave = Some bob
  ∧ dtor_inert (kind bob) = true
  ∧ is_base_of KThing (kind dave) = true
  ∧ ∃ w', add__unsafe KThing (Some dave) two = Returns (Some dave) w'
      ∧ add KThing (Some dave) two = Returns (Some dave) w'
      ∧ _mapping w' !! "b2" = Some dave
      ∧ _mapping w' !! "a1" = _mapping two !! "a1"
      ∧ size__unsafe w' = size__unsafe two
      ∧ dtor_runs w' = [mkDtorRun bob]
      ∧ destroyed two bob = false ∧ destroyed w' bob = true.
Proof.
  assert (_mapping two !! get_uuid dave = Some bob) as Hold by by_computation.
  assert (dtor_inert (kind bob) = true) as Hinert by reflexivity.
  assert (is_base_of KThing (kind dave) = true) as Hbase by reflexivity.
  split; [exact Hold|]. split; [exact Hinert|]. split; [exact Hbase|].
  destruct (add__unsafe_present_overwrites KThing dave bob two Hold Hinert Hbase)
    as (w' & Hadd & Hgated & Hnew & Hothers & Hsize & Hruns & Hgone).
  exists w'. split; [exact Hadd|]. split; [by apply Hgated|].
  split; [exact Hnew|]. split; [by apply Hothers|]. split; [exact Hsize|].
  split; [exact Hruns|]. apply Hgone. cbn. by intros ?%elem_of_nil.
Defined.

(** The claim of C1 as it is written fails: the insertion of [dave] under
    the identifier of [bob] returns a handle, and the entry stored under
    ["b2"] afterwards is [dave]. *)
Lemma add_collision_is_not_rejected :
  _mapping two !! get_uuid dave = Some bob
  ∧ dtor_inert (kind bob) = true
  ∧ (∃ w', add__unsafe KThing (Some dave) two = Returns (Some dave) w'
        ∧ _mapping w' !! get_uuid dave = Some dave
        ∧ _mapping w' !! get_uuid dave ≠ _mapping two !! get_uuid dave)
  ∧ ¬ (∀ (T : Kind) (t : Thing Kind) (w : World Kind),
         is_Some (_mapping w !! get_uuid t) →
         (∀ h w', add__unsafe T (Some t) w ≠ Returns h w')
         ∧ (∀ h w', add__unsafe T (Some t) w = Returns h w' →
                    _mapping w' !! get_uuid t = _mapping w !! get_uuid t)).
Proof.
  split; [by_computation|]. split; [reflexivity|]. split.
  - eexists. split; [reflexivity|]. by vm_compute.
  - intros Hclaim.
    destruct (Hclaim KThing dave two) as [Hfails _]; [by eexists|].
    by eapply Hfails.
Qed.

(** The claim of C5 as it is written fails: two insertions under one
    identifier, of Things with inert destructors, leave one entry. *)
Lemma size_after_colliding_insertions :
  let ops := [Insert KChild bob; Insert KThing dave] in
  insertions (run ops initial).1 = 2
  ∧ successful_removals (run ops initial).1 = 0
  ∧ size__unsafe (run ops initial).2 = 1
  ∧ size__unsafe (run ops initial).2
    ≠ insertions (run ops initial).1 - successful_removals (run ops initial).1.
Proof. by vm_compute. Qed.

Lemma size_counts_fresh_insertions_witness :
  let ops := [Insert KChild bob; Insert KChild carol; Remove "a1"; Remove "a1"] in
  inert_ops ops
  ∧ Forall (λ o, ∀ h, o ≠ Inserted false h) (run ops initial).1
  ∧ insertions (run ops initial).1 = 2
  ∧ successful_removals (run ops initial).1 = 1
  ∧ Z.of_nat (size__unsafe (run ops initial).2) = (2 - 1)%Z.
Proof.
  intros ops.
  assert (inert_ops ops) as Hinert by (repeat constructor).
  assert (Forall (λ o, ∀ h, o ≠ Inserted false h) (run ops initial).1) as Hfresh.
  { vm_compute. repeat constructor; discriminate. }
  split; [exact Hinert|]. split; [exact Hfresh|].
  split; [by_computation|]. split; [by_computation|].
  destruct (size_counts_fresh_insertions ops Hinert) as [_ Hsize].
  exact (Hsize Hfresh).
Defined.

(** The claim of C9 as it is written fails: after [remove__unsafe("b2")] has
    deleted [bob], the handle to [bob] is not null, yet reading through it
    is undefined, where [remove("b2")] returns [FAILURE]. *)
Lemma dangling_handle_is_not_remove_by_uuid :
  let w1 := (remove__unsafe "b2" two).2 in
  remove_ptr (Some bob) w1 = Undefined
  ∧ remove (get_uuid bob) w1 = Returns FAILURE w1
  ∧ ¬ (∀ (t : Thing Kind) (w : World Kind),
         remove_ptr (Some t) w = remove (get_uuid t) w).
Proof.
  intros w1. split; [by_computation|]. split; [by_computation|].
  intros Hclaim. specialize (Hclaim bob w1). by vm_compute in Hclaim.
Qed.

Lemma remove_ptr_as_remove_witness :
  let w1 := (remove__unsafe "b2" two).2 in
  destroyed two bob = false
  ∧ destroyed w1 bob = true ∧ mutex w1 = false
  ∧ remove_ptr (Some bob) two = remove "b2" two
  ∧ remove_ptr (Some bob) w1 = Undefined
  ∧ remove_ptr None two = Undefined.
Proof.
  intros w1.
  assert (destroyed two bob = false) as Hlive by by_computation.
  assert (destroyed w1 bob = true) as Hgone by by_computation.
  assert (mutex w1 = false) as Hfree1 by by_computation.
  assert (mutex two = false) as Hfree by reflexivity.
  destruct (remove_ptr_as_remove bob two) as (Hsame & _ & Hnull).
  destruct (remove_ptr_as_remove bob w1) as (_ & Hdangling & _).
  split; [exact Hlive|]. split; [exact Hgone|]. split; [exact Hfree1|].
  split; [exact (Hsame Hlive)|]. split; [exact (Hdangling Hgone Hfree1)|].
  exact (Hnull Hfree).
Defined.



(** ** The compositions on the [Family] hierarchy *)

Lemma nothing_stored_initially (u : string) (old : Thing Kind) :
  _mapping (initial : World Kind) !! u = Some old → dtor_inert (kind old) = true.
Proof. intros Hold. cbn in Hold. by rewrite lookup_empty in Hold. Defined.

Lemma add__unsafe_then_get_witness :
  is_base_of KThing (kind bob) = true
  ∧ _mapping (initial : World Kind) !! get_uuid bob = None
  ∧ ∃ w', add__unsafe KThing (Some bob) initial = Returns (Some bob) w'
      ∧ get__unsafe KThing "b2" w' = Some bob
      ∧ get__unsafe KParent "a1" w' = get__unsafe KParent "a1" initial
      ∧ size__unsafe w' = 1 ∧ dtor_runs w' = [].
Proof.
  assert (is_base_of KThing (kind bob) = true) as Hbase by reflexivity.
  assert (_mapping (initial : World Kind) !! get_uuid bob = None) as Habsent
    by reflexivity.
  split; [exact Hbase|]. split; [exact Habsent|].
  destruct (add__unsafe_then_get KThing bob initial Hbase
              (nothing_stored_initially _))
    as (w' & Hadd & Hget & _ & Hothers & Hfresh).
  destruct (Hfresh Habsent) as [Hsize Hruns].
  exists w'. split; [exact Hadd|]. split; [exact Hget|].
  split; [by apply Hothers|]. by split.
Defined.

Lemma add_then_remove_restores_witness :
  let eve := mkThing 5 "c3" KChild "" in
  _mapping two !! get_uuid eve = None
  ∧ dtor_inert (kind eve) = true
  ∧ ∃ h w1 w2,
      add__unsafe KChild (Some eve) two = Returns h w1
      ∧ remove__unsafe "c3" w1 = (SUCCESS, w2)
      ∧ _mapping w2 = _mapping two
      ∧ size__unsafe w2 = 2
      ∧ (∀ K, get__unsafe K "c3" w2 = None)
      ∧ dtor_runs w2 = [mkDtorRun eve].
Proof.
  intros eve.
  assert (_mapping two !! get_uuid eve = None) as Hfresh by by_computation.
  assert (dtor_inert (kind eve) = true) as Hinert by reflexivity.
  split; [exact Hfresh|]. split; [exact Hinert|].
  exact (add_then_remove_restores KChild eve two Hfresh Hinert).
Defined.

Lemma bob_is_inert (t : Thing Kind) :
  _mapping two !! "b2" = Some t → dtor_inert (kind t) = true.
Proof. intros Ht. vm_compute in Ht. by injection Ht as <-. Defined.

Lemma remove__unsafe_post_witness :
  (∀ t, _mapping two !! "b2" = Some t → dtor_inert (kind t) = true)
  ∧ (remove__unsafe "b2" two).1 = SUCCESS
  ∧ "a1" ≠ "b2"
  ∧ get__unsafe KChild "b2" (remove__unsafe "b2" two).2 = None
  ∧ get__unsafe KParent "a1" (remove__unsafe "b2" two).2 = Some alice
  ∧ size__unsafe two = size__unsafe (remove__unsafe "b2" two).2 + 1.
Proof.
  destruct (remove__unsafe_post "b2" two bob_is_inert)
    as (Hstatus & Hgone & Hothers & Hsize & _).
  assert ((remove__unsafe "b2" two).1 = SUCCESS) as Hok.
  { apply Hstatus. by eexists. }
  split; [exact bob_is_inert|]. split; [exact Hok|]. split; [done|].
  split; [apply Hgone|]. split; [by rewrite Hothers|]. by rewrite Hok in Hsize.
Defined.

Lemma inserted_stored_or_destroyed_witness :
  let ops := [Insert KChild bob; Insert KThing dave; Remove "b2"] in
  inert_ops ops ∧ NoDup (inserted_oids ops)
  ∧ insertions (run ops initial).1 = 2
  ∧ size__unsafe (run ops initial).2 = 0
  ∧ destroyed_oids (run ops initial).2 = [2; 4]%positive
  ∧ insertions (run ops initial).1
    = size__unsafe (run ops initial).2 + length (dtor_runs (run ops initial).2)
  ∧ NoDup (destroyed_oids (run ops initial).2).
Proof.
  intros ops.
  assert (inert_ops ops) as Hinert by (repeat constructor).
  assert (NoDup (inserted_oids ops)) as Hnodup.
  { apply (bool_decide_unpack _). by vm_compute. }
  destruct (inserted_stored_or_destroyed ops Hinert Hnodup)
    as (Hcount & Honce & _).
  split; [exact Hinert|]. split; [exact Hnodup|]. split; [by_computation|].
  split; [by_computation|]. split; [by_computation|]. by split.
Defined.

Lemma resolved_handle_removes_its_entry_witness :
  let ops := [Insert KChild carol; Insert KChild bob] in
  inert_ops ops ∧ NoDup (inserted_oids ops)
  ∧ get__unsafe KChild "b2" (run ops initial).2 = Some bob
  ∧ ∃ w', remove_ptr (Some bob) (run ops initial).2 = Returns SUCCESS w'
      ∧ _mapping w' = delete "b2" (_mapping (run ops initial).2)
      ∧ (∀ K, get__unsafe K "b2" w' = None)
      ∧ mutex w' = false
      ∧ destroyed w' bob = true.
Proof.
  intros ops.
  assert (inert_ops ops) as Hinert by (repeat constructor).
  assert (NoDup (inserted_oids ops)) as Hnodup.
  { apply (bool_decide_unpack _). by vm_compute. }
  assert (get__unsafe KChild "b2" (run ops initial).2 = Some bob) as Hget
    by by_computation.
  split; [exact Hinert|]. split; [exact Hnodup|]. split; [exact Hget|].
  exact (resolved_handle_removes_its_entry ops KChild "b2" bob
           Hinert Hnodup Hget).
Defined.

Lemma create_registers_a_Thing_witness :
  mutex two = false
  ∧ _mapping two !! "c3" = None
  ∧ ∃ t w', create 9 (Linux "c3") two = Returns (Some t) w'
      ∧ oid t = 9%positive ∧ get_uuid t = "c3" ∧ kind t = KThing
      ∧ get__unsafe KThing "c3" w' = Some t
      ∧ get__unsafe KParent "a1" w' = Some alice
      ∧ size__unsafe w' = 3.
Proof.
  assert (mutex two = false) as Hfree by reflexivity.
  assert (_mapping two !! "c3" = None) as Habsent by by_computation.
  assert (∀ old, _mapping two !! (_new_uuid (Linux "c3") two).1 = Some old →
            dtor_inert (kind old) = true) as Hnone.
  { intros old Hold. cbn [_new_uuid fst] in Hold. congruence. }
  split; [exact Hfree|]. split; [exact Habsent|].
  destruct (create_registers_a_Thing 9%positive (Linux "c3") two Hfree Hnone)
    as (t & w' & Hcreate & Hoid & Huuid & Hkind & _ & Hget & Hothers & _ & Hsize).
  cbn [_new_uuid fst] in Huuid. rewrite Huuid in Hget, Hothers, Hsize.
  exists t, w'. split; [exact Hcreate|]. split; [exact Hoid|].
  split; [exact Huuid|]. split; [exact Hkind|]. split; [exact Hget|].
  split; [by rewrite Hothers|]. by apply Hsize.
Defined.

Lemma failed_mintings_collide_witness :
  mutex two = false ∧ _mapping two !! "" = None ∧ (8 ≠ 9)%positive
  ∧ (5 ≠ 0 ∨ 0 ≠ 0)%Z ∧ (0 ≠ 0 ∨ 7 ≠ 0)%Z
  ∧ ∃ t1 w1 t2 w2,
      create 8 (Win32 5 0 "") two = Returns (Some t1) w1
      ∧ create 9 (Win32 0 7 "") w1 = Returns (Some t2) w2
      ∧ oid t1 = 8%positive ∧ oid t2 = 9%positive
      ∧ get_uuid t1 = "" ∧ get_uuid t2 = ""
      ∧ _mapping w1 !! "" = Some t1
      ∧ _mapping w2 !! "" = Some t2
      ∧ size__unsafe w2 = size__unsafe w1
      ∧ dtor_runs w2 = (dtor_runs w1 ++ [mkDtorRun t1])%list
      ∧ remove_ptr (Some t1) w2 = Undefined.
Proof.
  assert (mutex two = false) as Hfree by reflexivity.
  assert (_mapping two !! "" = None) as Hnone by by_computation.
  assert (8 ≠ 9)%positive as Hoids by discriminate.
  assert (5 ≠ 0 ∨ 0 ≠ 0)%Z as Hfirst by (left; lia).
  assert (0 ≠ 0 ∨ 7 ≠ 0)%Z as Hsecond by (right; lia).
  split; [exact Hfree|]. split; [exact Hnone|]. split; [exact Hoids|].
  split; [exact Hfirst|]. split; [exact Hsecond|].
  exact (failed_mintings_collide 8 9 5 0 "" 0 7 "" two
           Hfree Hnone Hoids Hfirst Hsecond).
Defined.

Lemma insertion_order_is_not_listed_witness :
  get_uuid carol ≠ get_uuid bob
  ∧ _mapping (run [Insert KChild carol; Insert KChild bob] initial).2
    = _mapping (run [Insert KChild bob; Insert KChild carol] initial).2
  ∧ ∃ s, list_entries__unsafe false
           (run [Insert KChild carol; Insert KChild bob] initial).2
         = Returns s (run [Insert KChild carol; Insert KChild bob] initial).2
       ∧ list_entries__unsafe false
           (run [Insert KChild bob; Insert KChild carol] initial).2
         = Returns s (run [Insert KChild bob; Insert KChild carol] initial).2.
Proof.
  assert (get_uuid carol ≠ get_uuid bob) as Hne by discriminate.
  destruct (insertion_order_is_not_listed KChild carol KChild bob initial Hne
              (λ u old _, nothing_stored_initially u old))
    as [Hsame Hlist].
  split; [exact Hne|]. split; [exact Hsame|].
  eexists. split; [by_computation|]. apply Hlist. by_computation.
Defined.
